(** * Cost model of the antenna array: [compute_costs] of cost_model.py

    The function samples 300 antenna diameters, solves a quadratic for the
    number of new antennas at each of them, evaluates the three cost terms and
    their sum, and reports the sample of least total cost.

    Numbers.  The program computes with IEEE doubles.  This development
    idealises a finite double as a real number ([R]) and keeps the one
    non-finite value the program can produce from real inputs on its grid: the
    NaN that [np.sqrt] returns for a negative argument, which then propagates
    through every arithmetic operation.  Rounding error, overflow and the
    infinities are outside the model.  Every divisor of the program ([2],
    [D**2] and [a = A_new**2]) is non-zero at every sampled diameter, and the
    base of the only real power ([D / D_12m]) is positive there. *)

From Stdlib Require Import Reals Lra Lia List ZArith Bool.
Import ListNotations.
Open Scope R_scope.

(** ** NumPy values and operations *)

Inductive float64 : Type :=
| Fin (r : R)
| NaN.

Coercion Fin : R >-> float64.

Definition lift1 (f : R -> R) (x : float64) : float64 :=
  match x with
  | Fin r => Fin (f r)
  | NaN => NaN
  end.

Definition lift2 (f : R -> R -> R) (x y : float64) : float64 :=
  match x, y with
  | Fin r, Fin s => Fin (f r s)
  | _, _ => NaN
  end.

Definition fadd : float64 -> float64 -> float64 := lift2 Rplus.
Definition fsub : float64 -> float64 -> float64 := lift2 Rminus.
Definition fmul : float64 -> float64 -> float64 := lift2 Rmult.
Definition fdiv : float64 -> float64 -> float64 := lift2 Rdiv.
Definition fneg : float64 -> float64 := lift1 Ropp.

(** [x ** 2] *)
Definition fsquare : float64 -> float64 := lift1 (fun r => r ^ 2).

(** [x ** alpha] for a real exponent; the base is positive wherever the
    program uses it. *)
Definition fpower : float64 -> float64 -> float64 := lift2 Rpower.

(** [np.sqrt]: NaN (and a warning, no exception) below zero. *)
Definition fsqrt (x : float64) : float64 :=
  match x with
  | Fin r => if Rlt_dec r 0 then NaN else Fin (sqrt r)
  | NaN => NaN
  end.

Definition isnan (x : float64) : bool :=
  match x with
  | Fin _ => false
  | NaN => true
  end.

(** Comparisons of doubles: false as soon as one side is NaN. *)
Definition fle (x y : float64) : Prop :=
  match x, y with
  | Fin r, Fin s => r <= s
  | _, _ => False
  end.

Definition flt (x y : float64) : Prop :=
  match x, y with
  | Fin r, Fin s => r < s
  | _, _ => False
  end.

(** ** Arrays and broadcasting *)

Definition ndarray : Type := list float64.

(** array (op) array, element by element *)
Fixpoint vv (op : float64 -> float64 -> float64) (u v : ndarray) : ndarray :=
  match u, v with
  | x :: u', y :: v' => op x y :: vv op u' v'
  | _, _ => []
  end.

(** scalar (op) array *)
Definition sv (op : float64 -> float64 -> float64) (s : float64) (v : ndarray)
  : ndarray := map (op s) v.

(** array (op) scalar *)
Definition vs (op : float64 -> float64 -> float64) (v : ndarray) (s : float64)
  : ndarray := map (fun x => op x s) v.

Declare Scope np_scope.
Delimit Scope np_scope with np.
Notation "u [+] v" := (vv fadd u v) (at level 50, left associativity) : np_scope.
Notation "u [-] v" := (vv fsub u v) (at level 50, left associativity) : np_scope.
Notation "u [*] v" := (vv fmul u v) (at level 40, left associativity) : np_scope.
Notation "u [/] v" := (vv fdiv u v) (at level 40, left associativity) : np_scope.
Notation "s *] v" := (sv fmul s v) (at level 40, left associativity) : np_scope.
Notation "s +] v" := (sv fadd s v) (at level 50, left associativity) : np_scope.
Notation "s /] v" := (sv fdiv s v) (at level 40, left associativity) : np_scope.
Notation "v [* s" := (vs fmul v s) (at level 40, left associativity) : np_scope.
Notation "v [/ s" := (vs fdiv v s) (at level 40, left associativity) : np_scope.
Notation "v [+ s" := (vs fadd v s) (at level 50, left associativity) : np_scope.
Notation "v [** s" := (vs fpower v s) (at level 30, right associativity) : np_scope.
Notation "v [^2]" := (map fsquare v) (at level 1, format "v [^2]") : np_scope.
Notation "[-] v" := (map fneg v) (at level 35, right associativity) : np_scope.

(** [np.linspace(start, stop, num)] with the default [endpoint=True]:
    [arange(0, num) * step + start] with [step = (stop - start) / (num - 1)],
    and the last element then overwritten with [stop]. *)
Definition linspace_raw (start stop : R) (num : nat) : list R :=
  let step := (stop - start) / INR (num - 1) in
  map (fun i => INR i * step + start) (seq 0 num).

Definition linspace (start stop : R) (num : nat) : list R :=
  let y := linspace_raw start stop num in
  if (1 <? num)%nat then removelast y ++ [stop] else y.

(** [np.argmin] on doubles.  The scan keeps the current minimum [mp] and its
    index; an element replaces it when [not (x >= mp)], which a NaN always
    satisfies, and the scan stops at the first NaN.  So the result is the
    index of the first NaN when there is one, else of the first least
    element. *)
Fixpoint argmin_scan (mp : R) (min_ind i : nat) (l : ndarray) : nat :=
  match l with
  | [] => min_ind
  | NaN :: _ => i
  | Fin x :: l' =>
      if Rle_dec mp x then argmin_scan mp min_ind (S i) l'
      else argmin_scan x i (S i) l'
  end.

Definition argmin (l : ndarray) : nat :=
  match l with
  | [] => 0%nat
  | NaN :: _ => 0%nat
  | Fin mp :: l' => argmin_scan mp 0 1 l'
  end.

(** Indexing an array (the program only indexes within bounds). *)
Definition getitem (v : ndarray) (i : nat) : float64 := nth i v NaN.

(** [np.round]: to the nearest integer, ties to the even one. *)
Definition floor (x : R) : Z := (up x - 1)%Z.

Definition round_half_even (x : R) : Z :=
  let f := floor x in
  let d := x - IZR f in
  if Rlt_dec d (1 / 2) then f
  else if Rlt_dec (1 / 2) d then (f + 1)%Z
  else if Z.even f then f else (f + 1)%Z.

Definition np_round : float64 -> float64 :=
  lift1 (fun r => IZR (round_half_even r)).

(** Python's [int] on a double: truncation towards zero, and
    [ValueError: cannot convert float NaN to integer] on NaN. *)
Inductive exn : Type :=
| ValueError.

Definition trunc (x : R) : Z :=
  if Rle_dec 0 x then floor x else (- floor (- x))%Z.

Definition py_int (x : float64) : exn + Z :=
  match x with
  | Fin r => inr (trunc r)
  | NaN => inl ValueError
  end.

(** ** The evaluator *)

(** The dictionary that [compute_costs] returns. *)
Record CostCurve : Type := mkCostCurve {
  D : ndarray;
  na : ndarray;
  cost_ant : ndarray;
  cost_rcv : ndarray;
  cost_corr : ndarray;
  total_cost : ndarray;
  D_opt : float64;
  C_min : float64;
  new_antennae : Z
}.

Local Open Scope np_scope.

Definition compute_costs (C f1 f2 f3 SNR : R) (integrate : bool) (alpha : R)
  : exn + CostCurve :=
  let D : ndarray := map Fin (linspace 6 50 300) in
  let D_12m : R := 12 in
  let n_12m : R := 50 in
  let '(n2, cost_ant, cost_rcv, cost_corr, total_cost) :=
    if integrate then
      let A_new := (PI *] D [^2] [/ 4) in
      let A_old : R := PI * D_12m ^ 2 / 4 in
      let a := A_new [^2] in
      let b := (2 * n_12m * A_old) *] A_new [-] A_new [^2] in
      let N := n_12m * (n_12m - 1) in
      let c : R := (1 - SNR ^ 2 * (1 - 0.3) ^ 2) * N * A_old ^ 2 in
      let n2 := ([-] b [+] map fsqrt (b [^2] [-] 4 *] a [* c)) [/ 2 [/] a in
      let cost_ant := f1 *] n2 [*] (D [/ D_12m) [** alpha in
      let cost_rcv := f2 *] n2 in
      let cost_corr := f3 *] (n2 [+ n_12m) [^2] in
      let total_cost := C +] cost_ant [+] cost_rcv [+] cost_corr in
      (n2, cost_ant, cost_rcv, cost_corr, total_cost)
    else
      let c := (2 * SNR ^ 2) *] ((D_12m ^ 2) /] D [^2]) [^2]
                 [* ((1 - 0.3) ^ 2) [* (n_12m * (n_12m - 1) / 2) in
      let n2 := (1 +] map fsqrt (1 +] 4 *] c)) [/ 2 in
      let cost_ant := f1 *] n2 [*] (D [/ D_12m) [** alpha in
      let cost_rcv := f2 *] n2 in
      let cost_corr := f3 *] n2 [^2] in
      let total_cost := C +] cost_ant [+] cost_rcv [+] cost_corr in
      (n2, cost_ant, cost_rcv, cost_corr, total_cost) in
  let min_index := argmin total_cost in
  let D_opt := getitem D min_index in
  let C_min := getitem total_cost min_index in
  match py_int (np_round (getitem n2 min_index)) with
  | inl e => inl e
  | inr k =>
      inr {| D := D; na := n2; cost_ant := cost_ant; cost_rcv := cost_rcv;
             cost_corr := cost_corr; total_cost := total_cost;
             D_opt := D_opt; C_min := C_min; new_antennae := k |}
  end.

Local Close Scope np_scope.

(** ** The quadratics as the specification words them *)

Module Spec.

Definition D_existing : R := 12.
Definition n_existing : R := 50.
Definition efficiency_loss : R := 0.7.

(** Regime A *)
Definition A_new (d : R) : R := PI * d ^ 2 / 4.
Definition A_old : R := PI * D_existing ^ 2 / 4.
Definition N0 : R := 50 * 49.
Definition a (d : R) : R := A_new d ^ 2.
Definition b (d : R) : R := 2 * n_existing * A_old * A_new d - A_new d ^ 2.
Definition c (gain : R) : R :=
  (1 - gain ^ 2 * efficiency_loss ^ 2) * N0 * A_old ^ 2.
Definition discriminant (gain d : R) : R := b d ^ 2 - 4 * a d * c gain.

(** Regime B *)
Definition c_alone (gain d : R) : R :=
  2 * gain ^ 2 * (D_existing ^ 2 / d ^ 2) ^ 2 * efficiency_loss ^ 2
  * (n_existing * (n_existing - 1) / 2).
Definition discriminant_alone (gain d : R) : R := 1 + 4 * c_alone gain d.
Definition root_alone (gain d : R) : R :=
  (1 + sqrt (discriminant_alone gain d)) / 2.

End Spec.

(** ** The program, one sampled diameter at a time

    NumPy's broadcasting makes every array of [compute_costs] the image of
    the grid under a function of the diameter; these are those functions,
    read off the program's lines. *)

Section Pointwise.

Variables C f1 f2 f3 SNR : R.
Variable integrate : bool.
Variable alpha : R.

Definition A_new_at (d : R) : R := PI * d ^ 2 / 4.
Definition A_old : R := PI * 12 ^ 2 / 4.
Definition a_at (d : R) : R := A_new_at d ^ 2.
Definition b_at (d : R) : R := 2 * 50 * A_old * A_new_at d - A_new_at d ^ 2.
Definition c_int : R := (1 - SNR ^ 2 * (1 - 0.3) ^ 2) * (50 * (50 - 1)) * A_old ^ 2.
Definition c_at (d : R) : R :=
  2 * SNR ^ 2 * (12 ^ 2 / d ^ 2) ^ 2 * (1 - 0.3) ^ 2 * (50 * (50 - 1) / 2).

(** The argument of [np.sqrt] in each regime. *)
Definition disc_at (d : R) : R :=
  if integrate then b_at d ^ 2 - 4 * a_at d * c_int else 1 + 4 * c_at d.

Definition n2_at (d : R) : float64 :=
  if integrate then
    fdiv (fdiv (fadd (fneg (b_at d)) (fsqrt (b_at d ^ 2 - 4 * a_at d * c_int))) 2)
         (a_at d)
  else
    fdiv (fadd 1 (fsqrt (1 + 4 * c_at d))) 2.

Definition cost_ant_at (d : R) : float64 :=
  fmul (fmul f1 (n2_at d)) (fpower (d / 12) alpha).

Definition cost_rcv_at (d : R) : float64 := fmul f2 (n2_at d).

Definition cost_corr_at (d : R) : float64 :=
  if integrate then fmul f3 (fsquare (fadd (n2_at d) 50))
  else fmul f3 (fsquare (n2_at d)).

Definition total_cost_at (d : R) : float64 :=
  fadd (fadd (fadd C (cost_ant_at d)) (cost_rcv_at d)) (cost_corr_at d).

End Pointwise.

(** The sampling grid of the program. *)
Definition grid : list R := linspace 6 50 300.

(** The returned dictionary, written with the pointwise functions; [k] is the
    rounded antenna count at the optimum. *)
Definition pointwise_curve (C f1 f2 f3 SNR : R) (integrate : bool) (alpha : R)
           (k : Z) : CostCurve :=
  let total := map (total_cost_at C f1 f2 f3 SNR integrate alpha) grid in
  {| D := map Fin grid;
     na := map (n2_at SNR integrate) grid;
     cost_ant := map (cost_ant_at f1 SNR integrate alpha) grid;
     cost_rcv := map (cost_rcv_at f2 SNR integrate) grid;
     cost_corr := map (cost_corr_at f3 SNR integrate) grid;
     total_cost := total;
     D_opt := getitem (map Fin grid) (argmin total);
     C_min := getitem total (argmin total);
     new_antennae := k |}.

(** The default parameters of the program. *)
Definition default_C : R := 50000000.
Definition default_f1 : R := 5000000.
Definition default_f2 : R := 250000.
Definition default_f3 : R := 6000.
Definition default_SNR : R := 5.
Definition default_alpha : R := 2.7.

(** ** The slider callback [update]

    The callback reads the six sliders and the checkbox group, rebuilds the
    parameter dictionary, evaluates the model and replaces the data of the
    two plot sources.  The title string it also sets (a decimal rendering of
    [D_opt], [C_min] and [new_antennae]) is not part of this model. *)

(** The widgets: the [value] of each slider and the [active] list of the
    checkbox group (the indices of the ticked boxes). *)
Record Sliders : Type := mkSliders {
  slider_C : R;
  slider_f1 : R;
  slider_f2 : R;
  slider_f3 : R;
  slider_SNR : R;
  slider_alpha : R;
  button_active : list nat
}.

(** The dictionary [values] built by [update]. *)
Record Values : Type := mkValues {
  val_C : R;
  val_f1 : R;
  val_f2 : R;
  val_f3 : R;
  val_SNR : R;
  val_alpha : R;
  val_integrate : nat
}.

Definition update_values (s : Sliders) : Values :=
  {| val_C := slider_C s * 1e6;
     val_f1 := slider_f1 s * 1e6;
     val_f2 := slider_f2 s;
     val_f3 := slider_f3 s;
     val_SNR := slider_SNR s;
     val_alpha := slider_alpha s;
     val_integrate := length (button_active s) |}.

(** Truth value of a Python integer in [if integrate:]. *)
Definition truthy (n : nat) : bool := negb (n =? 0)%nat.

(** The call of [compute_costs] with the entries of [values] as keyword
    arguments. *)
Definition compute_costs_kw (v : Values) : exn + CostCurve :=
  compute_costs (val_C v) (val_f1 v) (val_f2 v) (val_f3 v) (val_SNR v)
                (truthy (val_integrate v)) (val_alpha v).

(** The data of [source_left] and of the optimum marker. *)
Record ColumnData : Type := mkColumnData {
  col_D : ndarray;
  col_total : ndarray;
  col_ant : ndarray;
  col_rcv : ndarray;
  col_corr : ndarray
}.

Record Plot : Type := mkPlot {
  source_left : ColumnData;
  marker_x : list float64;
  marker_y : list float64
}.

(** The contents of the sources after the callback; they are replaced as a
    whole, so nothing of the old contents enters.  An exception of
    [compute_costs] leaves the callback before any source is assigned. *)
Definition update (s : Sliders) : exn + Plot :=
  match compute_costs_kw (update_values s) with
  | inl e => inl e
  | inr data_new =>
      inr {| source_left :=
               {| col_D := D data_new;
                  col_total := total_cost data_new;
                  col_ant := cost_ant data_new;
                  col_rcv := cost_rcv data_new;
                  col_corr := cost_corr data_new |};
             marker_x := [D_opt data_new];
             marker_y := [C_min data_new] |}
  end.

(** The widgets as the program creates them: each slider at its default (the
    two cost sliders in millions) and the box ticked. *)
Definition initial_sliders : Sliders :=
  {| slider_C := 50000000 / 1e6;
     slider_f1 := 5000000 / 1e6;
     slider_f2 := 250000;
     slider_f3 := 6000;
     slider_SNR := 5;
     slider_alpha := 2.7;
     button_active := [0%nat] |}.

(** A double that is not NaN. *)
Definition finite (x : float64) : Prop := isnan x = false.

(** ** Arrays: broadcasting is pointwise *)

Lemma vv_map {A : Type} (op : float64 -> float64 -> float64)
      (f g : A -> float64) (l : list A) :
  vv op (map f l) (map g l) = map (fun x => op (f x) (g x)) l.
Proof.
  induction l as [|x l IH]; simpl; [reflexivity|].
  now rewrite IH.
Qed.

Lemma sv_map {A : Type} (op : float64 -> float64 -> float64) (s : float64)
      (f : A -> float64) (l : list A) :
  sv op s (map f l) = map (fun x => op s (f x)) l.
Proof. unfold sv. now rewrite map_map. Qed.

Lemma vs_map {A : Type} (op : float64 -> float64 -> float64) (s : float64)
      (f : A -> float64) (l : list A) :
  vs op (map f l) s = map (fun x => op (f x) s) l.
Proof. unfold vs. now rewrite map_map. Qed.

Lemma getitem_map (f : R -> float64) (l : list R) (i : nat) (d0 : R) :
  (i < length l)%nat -> getitem (map f l) i = f (nth i l d0).
Proof.
  intros Hi. unfold getitem.
  rewrite (nth_indep _ NaN (f d0)) by now rewrite length_map.
  apply map_nth.
Qed.

(** ** [argmin] and NaN *)

Lemma argmin_scan_bounds mp k i l :
  (k < i)%nat -> (argmin_scan mp k i l < i + length l)%nat.
Proof.
  revert mp k i. induction l as [|x l IH]; intros mp k i Hk; simpl.
  - lia.
  - destruct x as [r|]; [|lia].
    destruct (Rle_dec mp r).
    + specialize (IH mp k (S i)). lia.
    + specialize (IH r i (S i)). lia.
Qed.

Lemma argmin_lt_length l : l <> [] -> (argmin l < length l)%nat.
Proof.
  destruct l as [|x l]; [congruence|]. intros _.
  destruct x as [r|]; simpl; [|lia].
  pose proof (argmin_scan_bounds r 0 1 l). lia.
Qed.

(** In a scan that meets a NaN, the result is the index of that NaN. *)
Lemma argmin_scan_nan mp k i l :
  Exists (fun x => isnan x = true) l ->
  (i <= argmin_scan mp k i l)%nat /\
  nth (argmin_scan mp k i l - i) l (Fin 0) = NaN.
Proof.
  revert mp k i. induction l as [|x l IH]; intros mp k i Hex.
  - inversion Hex.
  - destruct x as [r|]; simpl.
    + assert (Hl : Exists (fun x => isnan x = true) l).
      { inversion Hex; subst; [discriminate|assumption]. }
      destruct (Rle_dec mp r).
      * destruct (IH mp k (S i) Hl) as [H1 H2].
        split; [lia|].
        replace (argmin_scan mp k (S i) l - i)%nat
          with (S (argmin_scan mp k (S i) l - S i)) by lia.
        exact H2.
      * destruct (IH r i (S i) Hl) as [H1 H2].
        split; [lia|].
        replace (argmin_scan r i (S i) l - i)%nat
          with (S (argmin_scan r i (S i) l - S i)) by lia.
        exact H2.
    + split; [lia|]. now rewrite Nat.sub_diag.
Qed.

Lemma argmin_nan l :
  Exists (fun x => isnan x = true) l -> nth (argmin l) l (Fin 0) = NaN.
Proof.
  intros Hex. destruct l as [|x l]; [inversion Hex|].
  destruct x as [r|]; simpl; [|reflexivity].
  assert (Hl : Exists (fun x => isnan x = true) l).
  { inversion Hex; subst; [discriminate|assumption]. }
  destruct (argmin_scan_nan r 0 1 l Hl) as [H1 H2].
  destruct (argmin_scan r 0 1 l) as [|m]; [lia|].
  simpl in H2. now rewrite Nat.sub_0_r in H2.
Qed.

(** ** From the vectorised program to its pointwise form *)

Lemma compute_costs_pointwise C f1 f2 f3 SNR integrate alpha :
  compute_costs C f1 f2 f3 SNR integrate alpha =
  match py_int (np_round (getitem (map (n2_at SNR integrate) grid)
                 (argmin (map (total_cost_at C f1 f2 f3 SNR integrate alpha) grid))))
  with
  | inl e => inl e
  | inr k => inr (pointwise_curve C f1 f2 f3 SNR integrate alpha k)
  end.
Proof.
  unfold compute_costs, pointwise_curve. fold grid. generalize grid as g. intros g.
  destruct integrate; cbv zeta; unfold sv, vs;
    repeat (rewrite ?map_map, ?vv_map).
  all: reflexivity.
Qed.

(** ** The sampling grid *)

Lemma removelast_snoc {A : Type} (l : list A) (x : A) :
  removelast (l ++ [x]) = l.
Proof.
  induction l as [|y l IH]; [reflexivity|].
  simpl. rewrite IH. destruct l; reflexivity.
Qed.

Lemma linspace_shape (start stop : R) (n : nat) :
  linspace start stop (S (S n)) =
  map (fun i => INR i * ((stop - start) / INR (S n)) + start) (seq 0 (S n))
  ++ [stop].
Proof.
  unfold linspace, linspace_raw.
  replace (1 <? S (S n))%nat with true by (symmetry; apply Nat.ltb_lt; lia).
  replace (S (S n) - 1)%nat with (S n) by lia.
  rewrite (seq_S (S n) 0), map_app. simpl map at 2.
  now rewrite removelast_snoc.
Qed.

Lemma linspace_length (start stop : R) (n : nat) :
  length (linspace start stop (S (S n))) = S (S n).
Proof.
  rewrite linspace_shape, length_app, length_map, length_seq. simpl. lia.
Qed.

Lemma linspace_nth (start stop : R) (n i : nat) :
  (i < S (S n))%nat ->
  nth i (linspace start stop (S (S n))) 0 =
  start + INR i * ((stop - start) / INR (S n)).
Proof.
  intros Hi. rewrite linspace_shape.
  assert (HS : INR (S n) <> 0) by (apply not_0_INR; lia).
  destruct (Nat.eq_dec i (S n)) as [->|Hne].
  - rewrite app_nth2; rewrite length_map, length_seq; [|lia].
    rewrite Nat.sub_diag. simpl nth. field. exact HS.
  - set (f := fun i : nat => INR i * ((stop - start) / INR (S n)) + start).
    rewrite app_nth1 by (rewrite length_map, length_seq; lia).
    rewrite (nth_indep _ 0 (f 0%nat)) by (rewrite length_map, length_seq; lia).
    rewrite map_nth, seq_nth by lia. unfold f. simpl Nat.add. ring.
Qed.

Lemma grid_length : length grid = 300%nat.
Proof. apply (linspace_length 6 50 298). Qed.

Lemma grid_nth (i : nat) :
  (i < 300)%nat -> nth i grid 0 = 6 + INR i * (44 / 299).
Proof.
  intros Hi. unfold grid. rewrite (linspace_nth 6 50 298 i Hi).
  replace (INR 299) with 299 by (rewrite INR_IZR_INZ; reflexivity).
  lra.
Qed.

Lemma grid_In (d : R) :
  In d grid <-> exists i, (i < 300)%nat /\ d = 6 + INR i * (44 / 299).
Proof.
  split.
  - intros Hin. destruct (In_nth _ _ 0 Hin) as [i [Hi Hd]].
    rewrite grid_length in Hi. exists i. split; [exact Hi|].
    rewrite <- Hd. now apply grid_nth.
  - intros [i [Hi ->]]. rewrite <- (grid_nth i Hi).
    apply nth_In. now rewrite grid_length.
Qed.

Lemma grid_range (d : R) : In d grid -> 6 <= d <= 50.
Proof.
  intros Hin. apply grid_In in Hin. destruct Hin as [i [Hi ->]].
  assert (H0 : 0 <= INR i) by apply pos_INR.
  assert (H1 : INR i <= 299).
  { replace 299 with (INR 299) by (rewrite INR_IZR_INZ; reflexivity).
    apply le_INR. lia. }
  lra.
Qed.

Lemma grid_first : nth 0 grid 0 = 6.
Proof. rewrite grid_nth by lia. simpl. lra. Qed.

Lemma grid_last : nth 299 grid 0 = 50.
Proof.
  rewrite grid_nth by lia.
  replace (INR 299) with 299 by (rewrite INR_IZR_INZ; reflexivity).
  lra.
Qed.

(** ** Where the NaN comes from, and where it goes *)

Lemma n2_at_fin SNR integrate d :
  0 <= disc_at SNR integrate d ->
  n2_at SNR integrate d =
  Fin (if integrate
       then (- b_at d + sqrt (disc_at SNR integrate d)) / 2 / a_at d
       else (1 + sqrt (disc_at SNR integrate d)) / 2).
Proof.
  unfold n2_at, disc_at, fsqrt. intros H.
  destruct integrate.
  - destruct (Rlt_dec _ 0); [lra|reflexivity].
  - destruct (Rlt_dec _ 0); [lra|reflexivity].
Qed.

Lemma n2_at_nan SNR integrate d :
  disc_at SNR integrate d < 0 -> n2_at SNR integrate d = NaN.
Proof.
  unfold n2_at, disc_at, fsqrt. intros H.
  destruct integrate.
  - destruct (Rlt_dec _ 0); [reflexivity|lra].
  - destruct (Rlt_dec _ 0); [reflexivity|lra].
Qed.

Lemma isnan_n2_at SNR integrate d :
  isnan (n2_at SNR integrate d) = true <-> disc_at SNR integrate d < 0.
Proof.
  split.
  - intros H. destruct (Rlt_dec (disc_at SNR integrate d) 0) as [Hlt|Hge]; [exact Hlt|].
    rewrite n2_at_fin in H by lra. discriminate.
  - intros H. now rewrite n2_at_nan.
Qed.

Lemma isnan_total_cost_at C f1 f2 f3 SNR integrate alpha d :
  isnan (total_cost_at C f1 f2 f3 SNR integrate alpha d) =
  isnan (n2_at SNR integrate d).
Proof.
  unfold total_cost_at, cost_ant_at, cost_rcv_at, cost_corr_at.
  destruct (n2_at SNR integrate d), integrate; reflexivity.
Qed.

(** ** When the evaluator returns and when it raises *)

Lemma grid_nonempty : grid <> [].
Proof.
  intros H. pose proof grid_length as Hl. rewrite H in Hl. discriminate.
Qed.

Lemma argmin_total_in_grid C f1 f2 f3 SNR integrate alpha :
  (argmin (map (total_cost_at C f1 f2 f3 SNR integrate alpha) grid) < length grid)%nat.
Proof.
  rewrite <- (length_map (total_cost_at C f1 f2 f3 SNR integrate alpha)).
  apply argmin_lt_length. intros H. apply map_eq_nil in H.
  now apply grid_nonempty.
Qed.

Lemma compute_costs_raises C f1 f2 f3 SNR integrate alpha :
  Exists (fun d => disc_at SNR integrate d < 0) grid ->
  compute_costs C f1 f2 f3 SNR integrate alpha = inl ValueError.
Proof.
  intros Hex. rewrite compute_costs_pointwise.
  set (T := total_cost_at C f1 f2 f3 SNR integrate alpha).
  pose proof (argmin_total_in_grid C f1 f2 f3 SNR integrate alpha) as Hlt.
  fold T in Hlt.
  assert (HT : Exists (fun x => isnan x = true) (map T grid)).
  { apply Exists_exists in Hex. destruct Hex as [d [Hin Hd]].
    apply Exists_exists. exists (T d). split; [now apply in_map|].
    unfold T. rewrite isnan_total_cost_at. now apply isnan_n2_at. }
  apply argmin_nan in HT.
  rewrite (nth_indep _ (Fin 0) NaN) in HT by now rewrite length_map.
  change (getitem (map T grid) (argmin (map T grid)) = NaN) in HT.
  rewrite (getitem_map T grid _ 0 Hlt) in HT.
  rewrite (getitem_map _ grid _ 0 Hlt).
  assert (Hn : isnan (n2_at SNR integrate (nth (argmin (map T grid)) grid 0)) = true).
  { rewrite <- (isnan_total_cost_at C f1 f2 f3 SNR integrate alpha).
    fold T. now rewrite HT. }
  destruct (n2_at SNR integrate (nth (argmin (map T grid)) grid 0));
    [discriminate|reflexivity].
Qed.

Lemma compute_costs_returns C f1 f2 f3 SNR integrate alpha :
  Forall (fun d => 0 <= disc_at SNR integrate d) grid ->
  exists k, compute_costs C f1 f2 f3 SNR integrate alpha =
            inr (pointwise_curve C f1 f2 f3 SNR integrate alpha k).
Proof.
  intros Hall. rewrite compute_costs_pointwise.
  pose proof (argmin_total_in_grid C f1 f2 f3 SNR integrate alpha) as Hlt.
  rewrite (getitem_map _ grid _ 0 Hlt).
  rewrite Forall_forall in Hall.
  rewrite n2_at_fin by (apply Hall; now apply nth_In).
  unfold np_round, lift1, py_int. eexists. reflexivity.
Qed.

Lemma compute_costs_inr C f1 f2 f3 SNR integrate alpha r :
  compute_costs C f1 f2 f3 SNR integrate alpha = inr r ->
  Forall (fun d => 0 <= disc_at SNR integrate d) grid /\
  exists k, r = pointwise_curve C f1 f2 f3 SNR integrate alpha k.
Proof.
  intros Hr.
  assert (Hall : Forall (fun d => 0 <= disc_at SNR integrate d) grid).
  { destruct (Forall_Exists_dec (fun d => 0 <= disc_at SNR integrate d)
                (fun d => Rle_dec 0 (disc_at SNR integrate d)) grid) as [H|H];
      [exact H|].
    rewrite compute_costs_raises in Hr; [discriminate|].
    eapply Exists_impl; [|exact H]. intros d Hd. simpl in Hd. lra. }
  split; [exact Hall|].
  destruct (compute_costs_returns C f1 f2 f3 SNR integrate alpha Hall) as [k Hk].
  exists k. congruence.
Qed.

(** ** Real arithmetic of the two quadratics *)

Lemma pow2_pos (x : R) : x <> 0 -> 0 < x ^ 2.
Proof.
  intros H. replace (x ^ 2) with (Rsqr x) by (unfold Rsqr; ring).
  now apply Rlt_0_sqr.
Qed.

Lemma div_nonneg (x y : R) : 0 <= x -> 0 < y -> 0 <= x / y.
Proof.
  intros Hx Hy. unfold Rdiv.
  apply Rmult_le_pos; [exact Hx|]. left. now apply Rinv_0_lt_compat.
Qed.

Lemma sqrt_square_eq (x : R) : 0 <= x -> sqrt x ^ 2 = x.
Proof.
  intros H. replace (sqrt x ^ 2) with (sqrt x * sqrt x) by ring.
  now apply sqrt_sqrt.
Qed.

Lemma sqrt_lower (x y : R) : 0 <= y -> y ^ 2 <= x -> y <= sqrt x.
Proof.
  intros Hy Hx.
  rewrite <- (sqrt_pow2 y Hy). apply sqrt_le_1_alt. exact Hx.
Qed.

Lemma sqrt_lower_strict (x y : R) : 0 <= y -> y ^ 2 < x -> y < sqrt x.
Proof.
  intros Hy Hx.
  rewrite <- (sqrt_pow2 y Hy). apply sqrt_lt_1_alt.
  split; [apply pow2_ge_0|exact Hx].
Qed.

Lemma sqrt_upper_strict (x y : R) : 0 <= x -> 0 <= y -> x < y ^ 2 -> sqrt x < y.
Proof.
  intros H0 Hy Hx.
  rewrite <- (sqrt_pow2 y Hy). apply sqrt_lt_1_alt. split; assumption.
Qed.


Lemma spec_b_eq d : Spec.b d = b_at d.
Proof.
  unfold Spec.b, b_at, Spec.A_old, A_old, Spec.A_new, A_new_at,
    Spec.n_existing, Spec.D_existing. reflexivity.
Qed.

Lemma spec_c_eq SNR : Spec.c SNR = c_int SNR.
Proof.
  unfold Spec.c, c_int, Spec.A_old, A_old, Spec.N0, Spec.efficiency_loss,
    Spec.D_existing. lra.
Qed.

Lemma spec_discriminant_eq SNR d : Spec.discriminant SNR d = disc_at SNR true d.
Proof.
  unfold Spec.discriminant, disc_at.
  change (Spec.a d) with (a_at d).
  now rewrite spec_b_eq, spec_c_eq.
Qed.

Lemma spec_c_alone_eq SNR d : Spec.c_alone SNR d = c_at SNR d.
Proof.
  unfold Spec.c_alone, c_at, Spec.efficiency_loss, Spec.D_existing,
    Spec.n_existing.
  replace (1 - 0.3) with 0.7 by lra. reflexivity.
Qed.

Lemma spec_discriminant_alone_eq SNR d :
  Spec.discriminant_alone SNR d = disc_at SNR false d.
Proof.
  unfold Spec.discriminant_alone, disc_at. now rewrite spec_c_alone_eq.
Qed.

Lemma a_at_pos d : d <> 0 -> 0 < a_at d.
Proof.
  intros Hd. unfold a_at, A_new_at.
  pose proof PI_RGT_0 as Hpi.
  assert (H2 : 0 < d ^ 2) by (apply pow2_pos; exact Hd).
  assert (H3 : 0 < PI * d ^ 2 / 4) by (apply Rdiv_lt_0_compat; nra).
  apply pow2_pos. lra.
Qed.

Lemma b_at_pos d : 0 < d < 120 -> 0 < b_at d.
Proof.
  intros [H0 H1]. unfold b_at, A_new_at, A_old.
  pose proof PI_RGT_0 as Hpi.
  replace (2 * 50 * (PI * 12 ^ 2 / 4) * (PI * d ^ 2 / 4) - (PI * d ^ 2 / 4) ^ 2)
    with (PI ^ 2 * d ^ 2 * (14400 - d ^ 2) / 16) by field.
  assert (Hp : 0 < PI ^ 2) by (apply pow2_pos; lra).
  assert (Hd : 0 < d ^ 2) by (apply pow2_pos; lra).
  assert (Hk : 0 < 14400 - d ^ 2) by nra.
  apply Rdiv_lt_0_compat; [|lra].
  apply Rmult_lt_0_compat; [apply Rmult_lt_0_compat|]; assumption.
Qed.

Lemma disc_int_factor SNR d :
  disc_at SNR true d =
  PI ^ 4 * d ^ 4 / 256
  * ((14400 - d ^ 2) ^ 2 - 203212800 * (1 - 49 / 100 * SNR ^ 2)).
Proof.
  unfold disc_at, b_at, a_at, c_int, A_new_at, A_old.
  replace (1 - 0.3) with (7 / 10) by lra. field.
Qed.

Lemma disc_scale_pos d : d <> 0 -> 0 < PI ^ 4 * d ^ 4 / 256.
Proof.
  intros Hd. pose proof PI_RGT_0 as Hpi.
  assert (Hp : 0 < PI ^ 4).
  { replace (PI ^ 4) with ((PI ^ 2) ^ 2) by ring.
    apply pow2_pos. apply Rgt_not_eq. apply pow2_pos. lra. }
  assert (H4 : 0 < d ^ 4).
  { replace (d ^ 4) with ((d ^ 2) ^ 2) by ring.
    apply pow2_pos. apply Rgt_not_eq. apply pow2_pos. exact Hd. }
  apply Rdiv_lt_0_compat; [|lra].
  now apply Rmult_lt_0_compat.
Qed.

(** With a requested gain of at least one, the discriminant of the integrated
    regime is positive all over the grid. *)
Lemma disc_int_nonneg SNR d :
  1 <= SNR -> 6 <= d <= 50 -> 0 <= disc_at SNR true d.
Proof.
  intros Hs [Hlo Hhi]. rewrite disc_int_factor.
  apply Rmult_le_pos; [left; apply disc_scale_pos; lra|].
  assert (Hs2 : 1 <= SNR ^ 2) by nra.
  assert (Hd2 : d ^ 2 <= 2500) by nra.
  assert (Hk : 141610000 <= (14400 - d ^ 2) ^ 2) by nra.
  lra.
Qed.

Lemma c_at_nonneg SNR d : 0 <= c_at SNR d.
Proof.
  unfold c_at.
  assert (H1 : 0 <= SNR ^ 2) by apply pow2_ge_0.
  assert (H2 : 0 <= (12 ^ 2 / d ^ 2) ^ 2) by apply pow2_ge_0.
  assert (H3 : 0 <= (1 - 0.3) ^ 2) by apply pow2_ge_0.
  apply Rmult_le_pos; [|lra].
  apply Rmult_le_pos; [|exact H3].
  apply Rmult_le_pos; [lra|exact H2].
Qed.

Lemma disc_alone_ge_1 SNR d : 1 <= disc_at SNR false d.
Proof. unfold disc_at. pose proof (c_at_nonneg SNR d). lra. Qed.



Lemma root_alone_ge_1 (c : R) : 0 <= c -> 1 <= (1 + sqrt (1 + 4 * c)) / 2.
Proof.
  intros Hc.
  assert (H : 1 <= sqrt (1 + 4 * c)) by (apply sqrt_lower; lra).
  lra.
Qed.

(** Sign of the root of the integrated regime: it follows the sign of [-c]. *)
Lemma plus_root_nonneg (a b c : R) :
  0 < a -> c <= 0 -> 0 <= (- b + sqrt (b ^ 2 - 4 * a * c)) / 2 / a.
Proof.
  intros Ha Hc.
  assert (Hb : b <= sqrt (b ^ 2 - 4 * a * c)).
  { destruct (Rle_dec 0 b) as [Hb|Hb].
    - apply sqrt_lower; [exact Hb|nra].
    - pose proof (sqrt_pos (b ^ 2 - 4 * a * c)). lra. }
  apply div_nonneg; [|exact Ha].
  lra.
Qed.

Lemma plus_root_neg (a b c : R) :
  0 < a -> 0 < b -> 0 < c -> 0 <= b ^ 2 - 4 * a * c ->
  (- b + sqrt (b ^ 2 - 4 * a * c)) / 2 / a < 0.
Proof.
  intros Ha Hb Hc Hd.
  assert (Hs : sqrt (b ^ 2 - 4 * a * c) < b).
  { apply sqrt_upper_strict; [exact Hd|lra|nra]. }
  unfold Rdiv.
  assert (Hi : 0 < / a) by now apply Rinv_0_lt_compat.
  assert (Hn : (- b + sqrt (b ^ 2 - 4 * a * c)) * / 2 < 0) by lra.
  nra.
Qed.

Lemma c_int_sign SNR :
  (10 / 7 <= SNR -> c_int SNR <= 0) /\ (0 <= SNR < 10 / 7 -> 0 < c_int SNR).
Proof.
  pose proof PI_RGT_0 as Hpi.
  assert (HA : 0 < A_old ^ 2).
  { apply pow2_pos. unfold A_old. lra. }
  unfold c_int. split.
  - intros Hs.
    assert (H1 : 1 - SNR ^ 2 * (1 - 0.3) ^ 2 <= 0) by nra.
    assert (H2 : (1 - SNR ^ 2 * (1 - 0.3) ^ 2) * (50 * (50 - 1)) <= 0) by nra.
    nra.
  - intros [Hs0 Hs1].
    assert (H1 : 0 < 1 - SNR ^ 2 * (1 - 0.3) ^ 2) by nra.
    assert (H2 : 0 < (1 - SNR ^ 2 * (1 - 0.3) ^ 2) * (50 * (50 - 1))) by nra.
    nra.
Qed.

(** ** The antenna count at one diameter, in the specification's terms *)


Lemma n2_at_standalone SNR d :
  n2_at SNR false d = Fin (Spec.root_alone SNR d).
Proof.
  pose proof (disc_alone_ge_1 SNR d) as H1.
  rewrite (n2_at_fin SNR false d) by lra.
  unfold Spec.root_alone. now rewrite spec_discriminant_alone_eq.
Qed.



Lemma getitem_grid (f : R -> float64) (i : nat) :
  (i < 300)%nat -> getitem (map f grid) i = f (nth i grid 0).
Proof. intros Hi. apply getitem_map. now rewrite grid_length. Qed.

Lemma nth_grid_In (i : nat) : (i < 300)%nat -> In (nth i grid 0) grid.
Proof. intros Hi. apply nth_In. now rewrite grid_length. Qed.

Lemma defaults_return (integrate : bool) :
  exists k,
    compute_costs default_C default_f1 default_f2 default_f3 default_SNR
                  integrate default_alpha =
    inr (pointwise_curve default_C default_f1 default_f2 default_f3
                         default_SNR integrate default_alpha k).
Proof.
  apply compute_costs_returns. apply Forall_forall. intros d Hd.
  destruct integrate.
  - apply disc_int_nonneg; [unfold default_SNR; lra|now apply grid_range].
  - pose proof (disc_alone_ge_1 default_SNR d). lra.
Qed.

(** * The claims *)




(** C10.  Standalone regime: the argument of the square root is at least one
    at every sampled diameter, the evaluator returns rather than raising, and
    every antenna count of the returned curve is at least one. *)
Theorem standalone_never_raises (C f1 f2 f3 SNR alpha : R) :
  Forall (fun d => 1 <= Spec.discriminant_alone SNR d
                   /\ 0 <= Spec.c_alone SNR d) grid /\
  exists r : CostCurve,
    compute_costs C f1 f2 f3 SNR false alpha = inr r /\
    length (na r) = 300%nat /\
    Forall (fun n => fle 1 n) (na r).
Proof.
  split.
  - apply Forall_forall. intros d _. split.
    + rewrite spec_discriminant_alone_eq. apply disc_alone_ge_1.
    + rewrite spec_c_alone_eq. apply c_at_nonneg.
  - destruct (compute_costs_returns C f1 f2 f3 SNR false alpha) as [k Hk].
    { apply Forall_forall. intros d _.
      pose proof (disc_alone_ge_1 SNR d). lra. }
    eexists. split; [exact Hk|].
    unfold pointwise_curve; cbn [na]. split.
    + now rewrite length_map, grid_length.
    + apply Forall_forall. intros n Hn. apply in_map_iff in Hn.
      destruct Hn as [d [<- _]].
      rewrite n2_at_standalone. simpl.
      unfold Spec.root_alone, Spec.discriminant_alone.
      apply root_alone_ge_1. rewrite spec_c_alone_eq. apply c_at_nonneg.
Qed.

(** C3.  In both regimes, at every index of a returned curve the four cost
    entries are finite and the total is exactly the base cost plus the
    antenna, receiver and correlator costs. *)
Theorem total_cost_is_sum (C f1 f2 f3 SNR : R) (integrate : bool) (alpha : R)
        (r : CostCurve) (i : nat) :
  compute_costs C f1 f2 f3 SNR integrate alpha = inr r ->
  (i < 300)%nat ->
  exists t ant rcv corr : R,
    getitem (total_cost r) i = Fin t /\
    getitem (cost_ant r) i = Fin ant /\
    getitem (cost_rcv r) i = Fin rcv /\
    getitem (cost_corr r) i = Fin corr /\
    t = C + ant + rcv + corr.
Proof.
  intros Hr Hi. apply compute_costs_inr in Hr. destruct Hr as [Hall [k ->]].
  rewrite Forall_forall in Hall.
  unfold pointwise_curve; cbn [total_cost cost_ant cost_rcv cost_corr].
  rewrite !getitem_grid by exact Hi.
  set (d := nth i grid 0).
  assert (Hd : 0 <= disc_at SNR integrate d).
  { apply Hall. now apply nth_grid_In. }
  unfold total_cost_at, cost_ant_at, cost_rcv_at, cost_corr_at.
  rewrite (n2_at_fin SNR integrate d Hd).
  destruct integrate; cbn [fadd fmul fsquare fpower lift1 lift2];
    do 4 eexists; repeat split; reflexivity.
Qed.

Lemma total_cost_is_sum_witness :
  exists r : CostCurve,
    compute_costs default_C default_f1 default_f2 default_f3 default_SNR true
                  default_alpha = inr r /\
    (0 < 300)%nat /\
    exists t ant rcv corr : R,
      getitem (total_cost r) 0 = Fin t /\
      getitem (cost_ant r) 0 = Fin ant /\
      getitem (cost_rcv r) 0 = Fin rcv /\
      getitem (cost_corr r) 0 = Fin corr /\
      t = default_C + ant + rcv + corr.
Proof.
  destruct (defaults_return true) as [k Hk].
  assert (H0 : (0 < 300)%nat) by lia.
  eexists. split; [exact Hk|]. split; [exact H0|].
  exact (total_cost_is_sum _ _ _ _ _ _ _ _ 0%nat Hk H0).
Defined.



(** C5.  In both regimes, when the discriminant of the quadratic is negative
    at some sampled diameter the evaluator raises (Python's [ValueError], from
    converting the NaN count at the optimum to an integer) and returns no
    curve at all, so no NaN reaches the caller. *)
Theorem negative_discriminant_raises (C f1 f2 f3 SNR : R) (integrate : bool)
        (alpha : R) :
  Exists (fun d => (if integrate then Spec.discriminant SNR d
                    else Spec.discriminant_alone SNR d) < 0) grid ->
  compute_costs C f1 f2 f3 SNR integrate alpha = inl ValueError /\
  forall r : CostCurve, compute_costs C f1 f2 f3 SNR integrate alpha <> inr r.
Proof.
  intros Hex.
  assert (H : compute_costs C f1 f2 f3 SNR integrate alpha = inl ValueError).
  { apply compute_costs_raises.
    eapply Exists_impl; [|exact Hex]. intros d Hd. simpl in Hd.
    destruct integrate.
    - now rewrite <- spec_discriminant_eq.
    - now rewrite <- spec_discriminant_alone_eq. }
  split; [exact H|]. intros r Hr. rewrite H in Hr. discriminate.
Qed.

Lemma grid_has_50 : In 50 grid.
Proof. rewrite <- grid_last. apply nth_grid_In. lia. Qed.

Lemma discriminant_negative_at_50 : Spec.discriminant 0 50 < 0.
Proof.
  rewrite spec_discriminant_eq, disc_int_factor.
  pose proof (disc_scale_pos 50) as Hp.
  assert (H50 : 50 <> 0) by lra. specialize (Hp H50).
  assert (Hk : (14400 - 50 ^ 2) ^ 2 - 203212800 * (1 - 49 / 100 * 0 ^ 2) < 0) by lra.
  nra.
Qed.

Lemma negative_discriminant_raises_witness :
  Exists (fun d => Spec.discriminant 0 d < 0) grid /\
  compute_costs default_C default_f1 default_f2 default_f3 0 true default_alpha
    = inl ValueError /\
  forall r : CostCurve,
    compute_costs default_C default_f1 default_f2 default_f3 0 true
                  default_alpha <> inr r.
Proof.
  assert (Hex : Exists (fun d => Spec.discriminant 0 d < 0) grid).
  { apply Exists_exists. exists 50. split.
    - exact grid_has_50.
    - exact discriminant_negative_at_50. }
  split; [exact Hex|].
  exact (negative_discriminant_raises default_C default_f1 default_f2
           default_f3 0 true default_alpha Hex).
Defined.

(** Companion of C5: a returned curve holds no NaN. *)
Lemma returned_arrays_finite (C f1 f2 f3 SNR : R) (integrate : bool) (alpha : R)
      (r : CostCurve) :
  compute_costs C f1 f2 f3 SNR integrate alpha = inr r ->
  Forall (fun x => isnan x = false)
         (na r ++ cost_ant r ++ cost_rcv r ++ cost_corr r ++ total_cost r).
Proof.
  intros Hr. apply compute_costs_inr in Hr. destruct Hr as [Hall [k ->]].
  rewrite Forall_forall in Hall.
  unfold pointwise_curve; cbn [na cost_ant cost_rcv cost_corr total_cost].
  assert (Hn : forall d, In d grid -> isnan (n2_at SNR integrate d) = false).
  { intros d Hd. rewrite n2_at_fin by now apply Hall. reflexivity. }
  repeat rewrite Forall_app. repeat split; apply Forall_forall;
    intros x Hx; apply in_map_iff in Hx; destruct Hx as [d [<- Hd]];
    specialize (Hn d Hd).
  - exact Hn.
  - unfold cost_ant_at. destruct (n2_at SNR integrate d); [reflexivity|discriminate].
  - unfold cost_rcv_at. destruct (n2_at SNR integrate d); [reflexivity|discriminate].
  - unfold cost_corr_at.
    destruct (n2_at SNR integrate d), integrate; try reflexivity; discriminate.
  - now rewrite isnan_total_cost_at.
Qed.

(** C9.  Whatever the parameters, the diameters of a returned curve are the
    300 values of [np.linspace(6, 50, 300)]: the first is 6, the last is 50,
    consecutive ones are 44/299 apart, and they strictly increase. *)
Theorem diameters_fixed_grid (C f1 f2 f3 SNR : R) (integrate : bool) (alpha : R)
        (r : CostCurve) :
  compute_costs C f1 f2 f3 SNR integrate alpha = inr r ->
  D r = map Fin (linspace 6 50 300) /\
  length (D r) = 300%nat /\
  getitem (D r) 0 = Fin 6 /\
  getitem (D r) 299 = Fin 50 /\
  Forall (fun i => fsub (getitem (D r) (S i)) (getitem (D r) i) = Fin (44 / 299))
         (seq 0 299) /\
  Forall (fun j => Forall (fun i => flt (getitem (D r) i) (getitem (D r) j))
                          (seq 0 j))
         (seq 0 300).
Proof.
  intros Hr. apply compute_costs_inr in Hr. destruct Hr as [_ [k ->]].
  unfold pointwise_curve; cbn [D]. fold grid.
  split; [reflexivity|].
  split; [now rewrite length_map, grid_length|].
  split; [rewrite getitem_grid by lia; now rewrite grid_first|].
  split; [rewrite getitem_grid by lia; now rewrite grid_last|].
  split.
  - apply Forall_forall. intros i Hi. apply in_seq in Hi.
    rewrite !getitem_grid by lia. rewrite !grid_nth by lia.
    cbn [fsub lift2]. f_equal. rewrite S_INR. lra.
  - apply Forall_forall. intros j Hj. apply in_seq in Hj.
    apply Forall_forall. intros i Hi. apply in_seq in Hi.
    rewrite !getitem_grid by lia. rewrite !grid_nth by lia.
    cbn [flt].
    assert (Hij : INR i < INR j) by (apply lt_INR; lia).
    lra.
Qed.

Lemma diameters_fixed_grid_witness :
  exists r : CostCurve,
    compute_costs default_C default_f1 default_f2 default_f3 default_SNR true
                  default_alpha = inr r /\
    D r = map Fin (linspace 6 50 300) /\
    length (D r) = 300%nat /\
    getitem (D r) 0 = Fin 6 /\
    getitem (D r) 299 = Fin 50 /\
    Forall (fun i => fsub (getitem (D r) (S i)) (getitem (D r) i) = Fin (44 / 299))
           (seq 0 299) /\
    Forall (fun j => Forall (fun i => flt (getitem (D r) i) (getitem (D r) j))
                            (seq 0 j))
           (seq 0 300).
Proof.
  destruct (defaults_return true) as [k Hk].
  eexists. split; [exact Hk|].
  exact (diameters_fixed_grid _ _ _ _ _ _ _ _ Hk).
Defined.




(** The diameter of the existing antennas is not one of the samples, so what
    the standalone regime computes "at D = 12" is read off the pointwise
    functions. *)
Lemma grid_misses_12 : ~ In 12 grid.
Proof.
  intros Hin. apply grid_In in Hin. destruct Hin as [i [Hi Heq]].
  assert (H : INR (44 * i) = INR 1794).
  { rewrite mult_INR.
    replace (INR 44) with 44 by (rewrite INR_IZR_INZ; reflexivity).
    replace (INR 1794) with 1794 by (rewrite INR_IZR_INZ; reflexivity).
    lra. }
  apply INR_eq in H. lia.
Qed.

Lemma c_alone_unit_gain_at_12 : Spec.c_alone 1 12 = 2401 / 2.
Proof.
  unfold Spec.c_alone, Spec.D_existing, Spec.n_existing, Spec.efficiency_loss.
  replace 0.7 with (7 / 10) by lra. field.
Qed.

Lemma root_alone_unit_gain_at_12 : Spec.root_alone 1 12 = (1 + sqrt 4803) / 2.
Proof.
  unfold Spec.root_alone, Spec.discriminant_alone.
  rewrite c_alone_unit_gain_at_12.
  replace (1 + 4 * (2401 / 2)) with 4803 by lra. reflexivity.
Qed.

Lemma sqrt_4803_bounds : 69 < sqrt 4803 < 70.
Proof.
  split.
  - apply sqrt_lower_strict; lra.
  - apply sqrt_upper_strict; lra.
Qed.

(** C7, as stated, fails: in the standalone regime with gain 1 the antenna
    count computed at diameter 12 is not within 35 of zero. *)
Lemma standalone_unit_gain_counterexample :
  ~ (exists n : R, n2_at 1 false 12 = Fin n /\ Rabs n <= 35).
Proof.
  intros [n [Hn Habs]].
  rewrite n2_at_standalone, root_alone_unit_gain_at_12 in Hn.
  injection Hn as <-.
  pose proof sqrt_4803_bounds as [Hlo _].
  rewrite Rabs_pos_eq in Habs by lra. lra.
Qed.

(** C7, amended.  In the standalone regime with gain 1, the antenna count
    computed at diameter 12 is [(1 + sqrt 4803) / 2], between 35 and 36, and
    the correlator cost there is the correlator factor times its square, a
    number between 1235 and 1237. *)
Theorem standalone_unit_gain_at_12 (f3 : R) :
  n2_at 1 false 12 = Fin ((1 + sqrt 4803) / 2) /\
  35 < (1 + sqrt 4803) / 2 < 36 /\
  cost_corr_at f3 1 false 12 = Fin (f3 * ((1 + sqrt 4803) / 2) ^ 2) /\
  1235 < ((1 + sqrt 4803) / 2) ^ 2 < 1237.
Proof.
  pose proof sqrt_4803_bounds as [Hlo Hhi].
  assert (Hn : n2_at 1 false 12 = Fin ((1 + sqrt 4803) / 2)).
  { now rewrite n2_at_standalone, root_alone_unit_gain_at_12. }
  assert (Hsq : sqrt 4803 ^ 2 = 4803) by (apply sqrt_square_eq; lra).
  split; [exact Hn|].
  split; [lra|].
  split.
  - unfold cost_corr_at. rewrite Hn. reflexivity.
  - replace (((1 + sqrt 4803) / 2) ^ 2)
      with ((1 + 2 * sqrt 4803 + sqrt 4803 ^ 2) / 4) by field.
    rewrite Hsq. lra.
Qed.

Lemma Fin_inj (x y : R) : Fin x = Fin y -> x = y.
Proof. intros H. now inversion H. Qed.

(** Real powers of a base below one decrease with the exponent. *)
Lemma Rpower_lt_small_base (x y z : R) :
  0 < x < 1 -> y < z -> Rpower x z < Rpower x y.
Proof.
  intros [H0 H1] Hyz. unfold Rpower. apply exp_increasing.
  assert (Hln : ln x < 0).
  { rewrite <- ln_1. now apply ln_increasing. }
  nra.
Qed.

(** C8.  With a positive antenna cost factor, at an index where the antenna
    count is positive, raising the scaling exponent (all else fixed) leaves the
    diameter and the count as they are, strictly raises the antenna cost when
    the diameter exceeds 12 and strictly lowers it when the diameter is below
    12; in both regimes. *)
Theorem antenna_cost_monotone_in_exponent
        (C f1 f2 f3 SNR : R) (integrate : bool) (alpha1 alpha2 : R)
        (r1 r2 : CostCurve) (i : nat) (d n : R) :
  compute_costs C f1 f2 f3 SNR integrate alpha1 = inr r1 ->
  compute_costs C f1 f2 f3 SNR integrate alpha2 = inr r2 ->
  0 < f1 -> alpha1 < alpha2 -> (i < 300)%nat ->
  getitem (D r1) i = Fin d -> getitem (na r1) i = Fin n -> 0 < n ->
  getitem (D r2) i = Fin d /\
  getitem (na r2) i = Fin n /\
  (12 < d -> flt (getitem (cost_ant r1) i) (getitem (cost_ant r2) i)) /\
  (d < 12 -> flt (getitem (cost_ant r2) i) (getitem (cost_ant r1) i)).
Proof.
  intros Hr1 Hr2 Hf Ha Hi Hd Hn Hpos.
  apply compute_costs_inr in Hr1. destruct Hr1 as [_ [k1 ->]].
  apply compute_costs_inr in Hr2. destruct Hr2 as [_ [k2 ->]].
  unfold pointwise_curve in Hd, Hn |- *.
  cbn [D na cost_ant] in Hd, Hn |- *.
  rewrite getitem_grid in Hd by exact Hi.
  rewrite getitem_grid in Hn by exact Hi.
  rewrite !getitem_grid by exact Hi.
  apply Fin_inj in Hd.
  pose proof (grid_range _ (nth_grid_In i Hi)) as Hrange.
  rewrite Hd in Hn, Hrange |- *.
  split; [reflexivity|].
  split; [exact Hn|].
  unfold cost_ant_at. rewrite Hn. cbn [fmul fpower lift2 flt].
  assert (Hfn : 0 < f1 * n) by now apply Rmult_lt_0_compat.
  split; intros Hcmp; apply Rmult_lt_compat_l; try exact Hfn.
  - apply Rpower_lt; [lra|exact Ha].
  - apply Rpower_lt_small_base; [lra|exact Ha].
Qed.

Lemma antenna_cost_monotone_in_exponent_witness :
  exists r1 r2 : CostCurve,
    compute_costs default_C default_f1 default_f2 default_f3 default_SNR false
                  default_alpha = inr r1 /\
    compute_costs default_C default_f1 default_f2 default_f3 default_SNR false
                  3 = inr r2 /\
    0 < default_f1 /\ default_alpha < 3 /\ (0 < 300)%nat /\
    getitem (D r1) 0 = Fin 6 /\
    getitem (na r1) 0 = Fin (Spec.root_alone default_SNR 6) /\
    0 < Spec.root_alone default_SNR 6 /\
    getitem (D r2) 0 = Fin 6 /\
    getitem (na r2) 0 = Fin (Spec.root_alone default_SNR 6) /\
    (12 < 6 -> flt (getitem (cost_ant r1) 0) (getitem (cost_ant r2) 0)) /\
    (6 < 12 -> flt (getitem (cost_ant r2) 0) (getitem (cost_ant r1) 0)).
Proof.
  destruct (defaults_return false) as [k1 Hk1].
  destruct (compute_costs_returns default_C default_f1 default_f2 default_f3
              default_SNR false 3) as [k2 Hk2].
  { apply Forall_forall. intros d _.
    pose proof (disc_alone_ge_1 default_SNR d). lra. }
  assert (Hf : 0 < default_f1) by (unfold default_f1; lra).
  assert (Ha : default_alpha < 3) by (unfold default_alpha; lra).
  assert (Hi : (0 < 300)%nat) by lia.
  assert (Hd : getitem (D (pointwise_curve default_C default_f1 default_f2
                             default_f3 default_SNR false default_alpha k1)) 0
               = Fin 6).
  { unfold pointwise_curve; cbn [D].
    rewrite getitem_grid by exact Hi. now rewrite grid_first. }
  assert (Hn : getitem (na (pointwise_curve default_C default_f1 default_f2
                              default_f3 default_SNR false default_alpha k1)) 0
               = Fin (Spec.root_alone default_SNR 6)).
  { unfold pointwise_curve; cbn [na].
    rewrite getitem_grid by exact Hi. rewrite grid_first.
    apply n2_at_standalone. }
  assert (Hpos : 0 < Spec.root_alone default_SNR 6).
  { assert (Hc : 0 <= Spec.c_alone default_SNR 6).
    { rewrite spec_c_alone_eq. apply c_at_nonneg. }
    pose proof (root_alone_ge_1 _ Hc).
    unfold Spec.root_alone, Spec.discriminant_alone. lra. }
  do 2 eexists.
  split; [exact Hk1|]. split; [exact Hk2|].
  split; [exact Hf|]. split; [exact Ha|]. split; [exact Hi|].
  split; [exact Hd|]. split; [exact Hn|]. split; [exact Hpos|].
  exact (antenna_cost_monotone_in_exponent _ _ _ _ _ _ _ _ _ _ _ _ _
           Hk1 Hk2 Hf Ha Hi Hd Hn Hpos).
Defined.

(** * Further properties of the program *)

(** ** [np.argmin] on arrays without NaN *)

Lemma argmin_scan_finite mp k i l :
  Forall finite l ->
  (argmin_scan mp k i l = k /\ Forall (fun x => fle mp x) l) \/
  ((i <= argmin_scan mp k i l < i + length l)%nat /\
   exists v, nth (argmin_scan mp k i l - i) l NaN = Fin v /\ v < mp /\
             Forall (fun x => fle v x) l /\
             forall j, (j < argmin_scan mp k i l - i)%nat -> flt v (nth j l NaN)).
Proof.
  revert mp k i. induction l as [|x l IH]; intros mp k i Hfin.
  - left. split; [reflexivity|constructor].
  - inversion Hfin as [|x' l' Hx Hl]; subst.
    destruct x as [x|]; [|discriminate]. simpl argmin_scan.
    destruct (Rle_dec mp x) as [Hle|Hnle].
    + destruct (IH mp k (S i) Hl) as [[Hm Hall]|[Hm [v [Hv [Hlt [Hall Hbefore]]]]]].
      * left. split; [exact Hm|]. constructor; [exact Hle|exact Hall].
      * right. simpl length. split; [lia|]. exists v.
        replace (argmin_scan mp k (S i) l - i)%nat
          with (S (argmin_scan mp k (S i) l - S i)) by lia.
        split; [exact Hv|]. split; [exact Hlt|].
        split; [constructor; [simpl; lra|exact Hall]|].
        intros [|j] Hj; [simpl; lra|]. apply Hbefore. lia.
    + assert (Hxmp : x < mp) by lra.
      destruct (IH x i (S i) Hl) as [[Hm Hall]|[Hm [v [Hv [Hlt [Hall Hbefore]]]]]].
      * right. rewrite Hm. simpl length. split; [lia|]. exists x.
        rewrite Nat.sub_diag. split; [reflexivity|]. split; [exact Hxmp|].
        split; [constructor; [simpl; lra|exact Hall]|].
        intros j Hj. lia.
      * right. simpl length. split; [lia|]. exists v.
        replace (argmin_scan x i (S i) l - i)%nat
          with (S (argmin_scan x i (S i) l - S i)) by lia.
        split; [exact Hv|]. split; [lra|].
        split; [constructor; [simpl; lra|exact Hall]|].
        intros [|j] Hj; [simpl; lra|]. apply Hbefore. lia.
Qed.

(** On a non-empty array of finite numbers, [argmin] is the first index of a
    least element. *)
Lemma argmin_finite l :
  l <> [] -> Forall finite l ->
  exists v, getitem l (argmin l) = Fin v /\
            Forall (fun x => fle v x) l /\
            forall j, (j < argmin l)%nat -> flt v (getitem l j).
Proof.
  intros Hne Hfin. destruct l as [|x l]; [congruence|].
  inversion Hfin as [|x' l' Hx Hl]; subst.
  destruct x as [mp|]; [|discriminate]. unfold getitem. simpl argmin.
  destruct (argmin_scan_finite mp 0 1 l Hl)
    as [[Hm Hall]|[Hm [v [Hv [Hlt [Hall Hbefore]]]]]].
  - rewrite Hm. exists mp. split; [reflexivity|].
    split; [constructor; [simpl; lra|exact Hall]|].
    intros j Hj. lia.
  - exists v.
    destruct (argmin_scan mp 0 1 l) as [|m] eqn:Em; [lia|].
    simpl in Hv, Hbefore. rewrite Nat.sub_0_r in Hv, Hbefore.
    split; [exact Hv|].
    split; [constructor; [simpl; lra|exact Hall]|].
    intros [|j] Hj; [simpl; lra|]. simpl. apply Hbefore. lia.
Qed.

(** A strictly increasing map of the entries does not move the [argmin]. *)
Lemma argmin_scan_increasing (f : R -> R) mp k i l :
  (forall x y, x <= y <-> f x <= f y) ->
  argmin_scan (f mp) k i (map (lift1 f) l) = argmin_scan mp k i l.
Proof.
  intros Hf. revert mp k i. induction l as [|x l IH]; intros mp k i.
  - reflexivity.
  - destruct x as [x|]; simpl; [|reflexivity].
    destruct (Rle_dec (f mp) (f x)) as [H|H], (Rle_dec mp x) as [H'|H'].
    + apply IH.
    + exfalso. apply H'. exact (proj2 (Hf mp x) H).
    + exfalso. apply H. exact (proj1 (Hf mp x) H').
    + apply IH.
Qed.

Lemma argmin_increasing (f : R -> R) l :
  (forall x y, x <= y <-> f x <= f y) ->
  argmin (map (lift1 f) l) = argmin l.
Proof.
  intros Hf. destruct l as [|x l]; [reflexivity|].
  destruct x as [x|]; simpl; [|reflexivity].
  now apply argmin_scan_increasing.
Qed.

(** ** Rounding and conversion to an integer *)

Lemma floor_bounds (x : R) : IZR (floor x) <= x < IZR (floor x) + 1.
Proof.
  unfold floor. destruct (archimed x) as [H1 H2].
  rewrite minus_IZR. lra.
Qed.

Lemma floor_IZR (z : Z) : floor (IZR z) = z.
Proof.
  unfold floor. rewrite <- (up_tech (IZR z) z); [lia|lra|].
  rewrite plus_IZR. lra.
Qed.

Lemma floor_ge (x : R) (z : Z) : IZR z <= x -> (z <= floor x)%Z.
Proof.
  intros H. pose proof (floor_bounds x) as [_ Hhi].
  assert (Hlt : IZR z < IZR (floor x + 1)) by (rewrite plus_IZR; lra).
  apply lt_IZR in Hlt. lia.
Qed.

Lemma trunc_IZR (z : Z) : trunc (IZR z) = z.
Proof.
  unfold trunc. destruct (Rle_dec 0 (IZR z)).
  - apply floor_IZR.
  - rewrite <- opp_IZR, floor_IZR. lia.
Qed.

Lemma py_int_np_round (x : R) :
  py_int (np_round (Fin x)) = inr (round_half_even x).
Proof. unfold np_round, lift1, py_int. now rewrite trunc_IZR. Qed.

Lemma round_half_even_near (x : R) :
  Rabs (IZR (round_half_even x) - x) <= 1 / 2 /\
  (Rabs (IZR (round_half_even x) - x) = 1 / 2 ->
   Z.even (round_half_even x) = true).
Proof.
  pose proof (floor_bounds x) as [Hlo Hhi].
  unfold round_half_even.
  destruct (Rlt_dec (x - IZR (floor x)) (1 / 2)) as [H1|H1].
  - rewrite Rabs_left1 by lra. split; [lra|]. intros He. lra.
  - destruct (Rlt_dec (1 / 2) (x - IZR (floor x))) as [H2|H2].
    + rewrite plus_IZR. rewrite Rabs_pos_eq by lra. split; [lra|].
      intros He. lra.
    + destruct (Z.even (floor x)) eqn:Ev.
      * rewrite Rabs_left1 by lra. split; [lra|]. intros _. exact Ev.
      * rewrite plus_IZR. rewrite Rabs_pos_eq by lra. split; [lra|].
        intros _. rewrite Z.even_add, Ev. reflexivity.
Qed.

Lemma round_half_even_ge (x : R) (z : Z) :
  IZR z <= x -> (z <= round_half_even x)%Z.
Proof.
  intros H. apply floor_ge in H. unfold round_half_even.
  repeat match goal with |- context [if ?c then _ else _] => destruct c end; lia.
Qed.

Lemma round_half_even_le (x : R) (z : Z) :
  x <= IZR z -> (round_half_even x <= z)%Z.
Proof.
  intros H. pose proof (floor_bounds x) as [Hlo Hhi].
  assert (Hfz : (floor x <= z)%Z) by (apply le_IZR; lra).
  unfold round_half_even.
  destruct (Rlt_dec (x - IZR (floor x)) (1 / 2)) as [H1|H1]; [exact Hfz|].
  assert (Hne : floor x <> z).
  { intros Heq. rewrite <- Heq in H. lra. }
  repeat match goal with |- context [if ?c then _ else _] => destruct c end; lia.
Qed.

(** ** The optimum of a returned curve *)

Lemma Forall_firstn_nth {A : Type} (P : A -> Prop) (d : A) (m : nat) (l : list A) :
  (forall j, (j < m)%nat -> P (nth j l d)) -> (m <= length l)%nat ->
  Forall P (firstn m l).
Proof.
  revert l. induction m as [|m IH]; intros l H Hm; [constructor|].
  destruct l as [|x l]; [simpl in Hm; lia|].
  simpl. constructor.
  - apply (H 0%nat). lia.
  - apply IH; [|simpl in Hm; lia].
    intros j Hj. apply (H (S j)). lia.
Qed.

Lemma total_cost_finite C f1 f2 f3 SNR integrate alpha :
  Forall (fun d => 0 <= disc_at SNR integrate d) grid ->
  Forall finite (map (total_cost_at C f1 f2 f3 SNR integrate alpha) grid).
Proof.
  intros Hall. rewrite Forall_forall in Hall.
  apply Forall_forall. intros x Hx. apply in_map_iff in Hx.
  destruct Hx as [d [<- Hd]]. unfold finite.
  rewrite isnan_total_cost_at, n2_at_fin by now apply Hall. reflexivity.
Qed.

(** A returned curve, with the rounded count spelled out. *)
Lemma compute_costs_inr_opt C f1 f2 f3 SNR integrate alpha r :
  compute_costs C f1 f2 f3 SNR integrate alpha = inr r ->
  Forall (fun d => 0 <= disc_at SNR integrate d) grid /\
  exists n : R,
    n2_at SNR integrate
          (nth (argmin (map (total_cost_at C f1 f2 f3 SNR integrate alpha) grid))
               grid 0) = Fin n /\
    r = pointwise_curve C f1 f2 f3 SNR integrate alpha (round_half_even n).
Proof.
  intros Hr. pose proof (compute_costs_inr _ _ _ _ _ _ _ _ Hr) as [Hall _].
  split; [exact Hall|].
  rewrite compute_costs_pointwise in Hr.
  pose proof (argmin_total_in_grid C f1 f2 f3 SNR integrate alpha) as Hlt.
  rewrite (getitem_map _ grid _ 0 Hlt) in Hr.
  rewrite Forall_forall in Hall.
  rewrite n2_at_fin in Hr by (apply Hall; now apply nth_In).
  rewrite py_int_np_round in Hr.
  eexists. split; [apply n2_at_fin; apply Hall; now apply nth_In|].
  congruence.
Qed.

Lemma argmin_total_lt_300 C f1 f2 f3 SNR integrate alpha :
  (argmin (map (total_cost_at C f1 f2 f3 SNR integrate alpha) grid) < 300)%nat.
Proof.
  rewrite <- grid_length. apply argmin_total_in_grid.
Qed.

(** X1.  In a returned curve, [C_min] is a finite number no larger than any
    entry of [total_cost] and strictly smaller than every entry before the
    index of the optimum (ties go to the smallest diameter); [D_opt] is the
    sampled diameter at that index, between 6 and 50. *)
Theorem optimum_is_first_least (C f1 f2 f3 SNR : R) (integrate : bool) (alpha : R)
        (r : CostCurve) :
  compute_costs C f1 f2 f3 SNR integrate alpha = inr r ->
  let m := argmin (total_cost r) in
  (m < 300)%nat /\
  C_min r = getitem (total_cost r) m /\
  D_opt r = getitem (D r) m /\
  (exists d : R, D_opt r = Fin d /\ In d (linspace 6 50 300) /\ 6 <= d <= 50) /\
  Forall (fun t => fle (C_min r) t) (total_cost r) /\
  Forall (fun t => flt (C_min r) t) (firstn m (total_cost r)).
Proof.
  intros Hr. apply compute_costs_inr_opt in Hr. destruct Hr as [Hall [n [_ ->]]].
  unfold pointwise_curve; cbn [total_cost D C_min D_opt].
  set (T := map (total_cost_at C f1 f2 f3 SNR integrate alpha) grid).
  pose proof (argmin_total_lt_300 C f1 f2 f3 SNR integrate alpha) as Hm.
  fold T in Hm. cbv zeta.
  assert (HT : T <> []).
  { unfold T. intros H. apply map_eq_nil in H. now apply grid_nonempty. }
  destruct (argmin_finite T HT (total_cost_finite C f1 f2 f3 SNR integrate alpha Hall))
    as [v [Hv [Hmin Hfirst]]].
  split; [exact Hm|]. split; [reflexivity|]. split; [reflexivity|].
  split.
  - exists (nth (argmin T) grid 0). fold grid.
    split; [now apply getitem_grid|].
    split; [now apply nth_grid_In|].
    apply grid_range. now apply nth_grid_In.
  - rewrite Hv. split; [exact Hmin|].
    apply (Forall_firstn_nth _ NaN).
    + exact Hfirst.
    + assert (HlenT : length T = 300%nat).
      { unfold T. now rewrite length_map, grid_length. }
      rewrite HlenT. lia.
Qed.

Lemma optimum_is_first_least_witness :
  exists r : CostCurve,
    compute_costs default_C default_f1 default_f2 default_f3 default_SNR true
                  default_alpha = inr r /\
    let m := argmin (total_cost r) in
    (m < 300)%nat /\
    C_min r = getitem (total_cost r) m /\
    D_opt r = getitem (D r) m /\
    (exists d : R, D_opt r = Fin d /\ In d (linspace 6 50 300) /\ 6 <= d <= 50) /\
    Forall (fun t => fle (C_min r) t) (total_cost r) /\
    Forall (fun t => flt (C_min r) t) (firstn m (total_cost r)).
Proof.
  destruct (defaults_return true) as [k Hk].
  eexists. split; [exact Hk|].
  exact (optimum_is_first_least _ _ _ _ _ _ _ _ Hk).
Defined.

(** X2.  In a returned curve, [new_antennae] is the antenna count at the
    index of the optimum rounded to a nearest integer: it differs from that
    count by at most 1/2, and when the count lies exactly half-way between two
    integers the even one is reported. *)
Theorem new_antennae_rounds_optimum (C f1 f2 f3 SNR : R) (integrate : bool)
        (alpha : R) (r : CostCurve) :
  compute_costs C f1 f2 f3 SNR integrate alpha = inr r ->
  exists n : R,
    getitem (na r) (argmin (total_cost r)) = Fin n /\
    Rabs (IZR (new_antennae r) - n) <= 1 / 2 /\
    (Rabs (IZR (new_antennae r) - n) = 1 / 2 -> Z.even (new_antennae r) = true).
Proof.
  intros Hr. apply compute_costs_inr_opt in Hr. destruct Hr as [_ [n [Hn ->]]].
  unfold pointwise_curve; cbn [total_cost na new_antennae].
  exists n. split.
  - rewrite getitem_grid by apply argmin_total_lt_300. exact Hn.
  - apply round_half_even_near.
Qed.

Lemma new_antennae_rounds_optimum_witness :
  exists r : CostCurve,
    compute_costs default_C default_f1 default_f2 default_f3 default_SNR false
                  default_alpha = inr r /\
    exists n : R,
      getitem (na r) (argmin (total_cost r)) = Fin n /\
      Rabs (IZR (new_antennae r) - n) <= 1 / 2 /\
      (Rabs (IZR (new_antennae r) - n) = 1 / 2 -> Z.even (new_antennae r) = true).
Proof.
  destruct (defaults_return false) as [k Hk].
  eexists. split; [exact Hk|].
  exact (new_antennae_rounds_optimum _ _ _ _ _ _ _ _ Hk).
Defined.

(** Sign of the count at one sampled diameter. *)
Lemma n2_at_standalone_ge_1 SNR d :
  exists x : R, n2_at SNR false d = Fin x /\ 1 <= x.
Proof.
  exists (Spec.root_alone SNR d). split; [apply n2_at_standalone|].
  unfold Spec.root_alone, Spec.discriminant_alone.
  apply root_alone_ge_1. rewrite spec_c_alone_eq. apply c_at_nonneg.
Qed.

Lemma n2_at_integrated_sign SNR d :
  6 <= d <= 50 -> 0 <= disc_at SNR true d ->
  exists x : R, n2_at SNR true d = Fin x /\
                (10 / 7 <= SNR -> 0 <= x) /\
                (0 <= SNR < 10 / 7 -> x < 0).
Proof.
  intros Hd Hdisc. eexists. split; [apply (n2_at_fin SNR true d Hdisc)|].
  cbv iota. unfold disc_at.
  assert (Ha : 0 < a_at d) by (apply a_at_pos; lra).
  split; intros Hs.
  - apply plus_root_nonneg; [exact Ha|]. now apply (c_int_sign SNR).
  - apply plus_root_neg.
    + exact Ha.
    + apply b_at_pos; lra.
    + now apply (c_int_sign SNR).
    + exact Hdisc.
Qed.

(** X3.  The reported integer [new_antennae] is at least 1 in the standalone
    regime; in the integrated regime it is at least 0 when the gain is at
    least 10/7 and at most 0 when the gain lies in [0, 10/7). *)
Theorem new_antennae_sign (C f1 f2 f3 SNR : R) (integrate : bool) (alpha : R)
        (r : CostCurve) :
  compute_costs C f1 f2 f3 SNR integrate alpha = inr r ->
  if integrate
  then (10 / 7 <= SNR -> (0 <= new_antennae r)%Z) /\
       (0 <= SNR < 10 / 7 -> (new_antennae r <= 0)%Z)
  else (1 <= new_antennae r)%Z.
Proof.
  intros Hr. apply compute_costs_inr_opt in Hr. destruct Hr as [Hall [n [Hn ->]]].
  unfold pointwise_curve; cbn [new_antennae].
  rewrite Forall_forall in Hall.
  pose proof (nth_grid_In _ (argmin_total_lt_300 C f1 f2 f3 SNR integrate alpha))
    as Hin.
  pose proof (Hall _ Hin) as Hdisc. pose proof (grid_range _ Hin) as Hrange.
  destruct integrate.
  - destruct (n2_at_integrated_sign SNR _ Hrange Hdisc) as [x [Hx [Hge Hlt]]].
    rewrite Hx in Hn. apply Fin_inj in Hn. subst x.
    split; intros Hs.
    + apply round_half_even_ge. simpl. now apply Hge.
    + apply round_half_even_le. simpl. left. now apply Hlt.
  - destruct (n2_at_standalone_ge_1 SNR
               (nth (argmin (map (total_cost_at C f1 f2 f3 SNR false alpha) grid))
                    grid 0)) as [x [Hx Hge]].
    rewrite Hx in Hn. apply Fin_inj in Hn. subst x.
    apply round_half_even_ge. simpl. exact Hge.
Qed.

Lemma new_antennae_sign_witness :
  exists r : CostCurve,
    compute_costs default_C default_f1 default_f2 default_f3 default_SNR false
                  default_alpha = inr r /\
    (1 <= new_antennae r)%Z.
Proof.
  destruct (defaults_return false) as [k Hk].
  eexists. split; [exact Hk|].
  exact (new_antennae_sign _ _ _ _ _ _ _ _ Hk).
Defined.

(** ** Exactly when the evaluator raises *)

Lemma disc_int_grid_iff SNR :
  Forall (fun d => 0 <= disc_at SNR true d) grid <->
  61602800 <= 99574272 * SNR ^ 2.
Proof.
  split.
  - intros Hall. rewrite Forall_forall in Hall.
    pose proof (Hall 50 grid_has_50) as H50.
    rewrite disc_int_factor in H50.
    assert (H0 : 50 <> 0) by lra.
    pose proof (disc_scale_pos 50 H0) as Hp.
    assert (Hk : 0 <= (14400 - 50 ^ 2) ^ 2
                      - 203212800 * (1 - 49 / 100 * SNR ^ 2)) by nra.
    lra.
  - intros Hs. apply Forall_forall. intros d Hd.
    apply grid_range in Hd. rewrite disc_int_factor.
    apply Rmult_le_pos; [left; apply disc_scale_pos; lra|].
    assert (Hd2 : d ^ 2 <= 2500) by nra.
    assert (Hk : 141610000 <= (14400 - d ^ 2) ^ 2) by nra.
    lra.
Qed.



(** ** The slider callback *)

(** X5.  Whatever the other widgets hold and whether the box is ticked or not,
    with the gain slider at 1 or more (its range starts at 1) the callback
    does not raise: it installs 300-point columns on the fixed grid and puts
    the marker on the point of least total cost of the new curve. *)
Theorem update_within_slider_range (s : Sliders) :
  1 <= slider_SNR s ->
  exists p' : Plot,
    update s = inr p' /\
    col_D (source_left p') = map Fin (linspace 6 50 300) /\
    length (col_total (source_left p')) = 300%nat /\
    (let m := argmin (col_total (source_left p')) in
     marker_x p' = [getitem (col_D (source_left p')) m] /\
     marker_y p' = [getitem (col_total (source_left p')) m]) /\
    Forall (fun y => Forall (fun t => fle y t) (col_total (source_left p')))
           (marker_y p').
Proof.
  intros Hs. unfold update, compute_costs_kw, update_values.
  cbn [val_C val_f1 val_f2 val_f3 val_SNR val_alpha val_integrate].
  set (integrate := truthy (length (button_active s))).
  destruct (compute_costs_returns (slider_C s * 1e6) (slider_f1 s * 1e6)
              (slider_f2 s) (slider_f3 s) (slider_SNR s) integrate
              (slider_alpha s)) as [k Hk].
  { destruct integrate.
    - apply disc_int_grid_iff. nra.
    - apply Forall_forall. intros d _.
      pose proof (disc_alone_ge_1 (slider_SNR s) d). lra. }
  rewrite Hk. eexists. split; [reflexivity|].
  cbn [source_left marker_x marker_y col_D col_total].
  apply compute_costs_inr_opt in Hk. destruct Hk as [Hall [n [_ Hk]]].
  unfold pointwise_curve; cbn [D total_cost D_opt C_min].
  set (T := map (total_cost_at (slider_C s * 1e6) (slider_f1 s * 1e6)
                   (slider_f2 s) (slider_f3 s) (slider_SNR s) integrate
                   (slider_alpha s)) grid).
  split; [reflexivity|].
  split; [unfold T; now rewrite length_map, grid_length|].
  split; [split; reflexivity|].
  constructor; [|constructor].
  assert (HT : T <> []).
  { unfold T. intros H. apply map_eq_nil in H. now apply grid_nonempty. }
  destruct (argmin_finite T HT (total_cost_finite _ _ _ _ _ _ _ Hall))
    as [v [Hv [Hmin _]]].
  rewrite Hv. exact Hmin.
Qed.

Lemma update_within_slider_range_witness :
  1 <= slider_SNR initial_sliders /\
  exists p' : Plot,
    update initial_sliders = inr p' /\
    col_D (source_left p') = map Fin (linspace 6 50 300) /\
    length (col_total (source_left p')) = 300%nat /\
    (let m := argmin (col_total (source_left p')) in
     marker_x p' = [getitem (col_D (source_left p')) m] /\
     marker_y p' = [getitem (col_total (source_left p')) m]) /\
    Forall (fun y => Forall (fun t => fle y t) (col_total (source_left p')))
           (marker_y p').
Proof.
  assert (Hs : 1 <= slider_SNR initial_sliders).
  { unfold initial_sliders; cbn [slider_SNR]; lra. }
  split; [exact Hs|].
  exact (update_within_slider_range initial_sliders Hs).
Defined.

(** ** Costs against the base cost *)




(** ** How the antenna count moves with the gain and with the diameter *)

Lemma c_int_decreasing s1 s2 : 0 <= s1 < s2 -> c_int s2 < c_int s1.
Proof.
  intros [H0 H1]. unfold c_int.
  pose proof PI_RGT_0 as Hpi.
  assert (HA : 0 < A_old ^ 2) by (apply pow2_pos; unfold A_old; lra).
  assert (Hs : s1 ^ 2 < s2 ^ 2) by nra.
  assert (He : 0 < (1 - 0.3) ^ 2) by (apply pow2_pos; lra).
  assert (H2 : 1 - s2 ^ 2 * (1 - 0.3) ^ 2 < 1 - s1 ^ 2 * (1 - 0.3) ^ 2) by nra.
  assert (H3 : (1 - s2 ^ 2 * (1 - 0.3) ^ 2) * (50 * (50 - 1))
               < (1 - s1 ^ 2 * (1 - 0.3) ^ 2) * (50 * (50 - 1))) by nra.
  now apply Rmult_lt_compat_r.
Qed.

Lemma c_at_pos_factor d : d <> 0 -> 0 < (12 ^ 2 / d ^ 2) ^ 2.
Proof.
  intros Hd. apply pow2_pos. apply Rgt_not_eq.
  apply Rdiv_lt_0_compat; [lra|now apply pow2_pos].
Qed.

Lemma c_at_increasing_in_gain s1 s2 d :
  d <> 0 -> 0 <= s1 < s2 -> c_at s1 d < c_at s2 d.
Proof.
  intros Hd [H0 H1]. unfold c_at.
  pose proof (c_at_pos_factor d Hd) as Hq.
  assert (He : 0 < (1 - 0.3) ^ 2) by (apply pow2_pos; lra).
  assert (Hs : 2 * s1 ^ 2 < 2 * s2 ^ 2) by nra.
  apply Rmult_lt_compat_r; [lra|].
  apply Rmult_lt_compat_r; [exact He|].
  apply Rmult_lt_compat_r; [exact Hq|exact Hs].
Qed.


Lemma root_alone_increasing c1 c2 :
  0 <= c1 < c2 -> (1 + sqrt (1 + 4 * c1)) / 2 < (1 + sqrt (1 + 4 * c2)) / 2.
Proof.
  intros [H0 H1].
  assert (Hs : sqrt (1 + 4 * c1) < sqrt (1 + 4 * c2)).
  { apply sqrt_lt_1_alt. lra. }
  lra.
Qed.

(** The root taken in the integrated regime grows when [c] shrinks. *)
Lemma plus_root_decreasing_in_c a b c1 c2 :
  0 < a -> c2 < c1 -> 0 <= b ^ 2 - 4 * a * c1 ->
  (- b + sqrt (b ^ 2 - 4 * a * c1)) / 2 / a
  < (- b + sqrt (b ^ 2 - 4 * a * c2)) / 2 / a.
Proof.
  intros Ha Hc Hd.
  assert (Hs : sqrt (b ^ 2 - 4 * a * c1) < sqrt (b ^ 2 - 4 * a * c2)).
  { apply sqrt_lt_1_alt. split; [exact Hd|nra]. }
  unfold Rdiv. apply Rmult_lt_compat_r; [now apply Rinv_0_lt_compat|].
  lra.
Qed.







(** X7.  At every sampled diameter the antenna count strictly increases with
    the requested gain (for gains from 0 upwards, other parameters fixed), in
    both regimes. *)
Theorem count_increases_with_gain (C f1 f2 f3 SNR1 SNR2 : R) (integrate : bool)
        (alpha : R) (r1 r2 : CostCurve) (i : nat) :
  0 <= SNR1 -> SNR1 < SNR2 ->
  compute_costs C f1 f2 f3 SNR1 integrate alpha = inr r1 ->
  compute_costs C f1 f2 f3 SNR2 integrate alpha = inr r2 ->
  (i < 300)%nat ->
  flt (getitem (na r1) i) (getitem (na r2) i).
Proof.
  intros H0 Hlt Hr1 Hr2 Hi.
  apply compute_costs_inr in Hr1. destruct Hr1 as [Hall1 [k1 ->]].
  apply compute_costs_inr in Hr2. destruct Hr2 as [Hall2 [k2 ->]].
  rewrite Forall_forall in Hall1, Hall2.
  unfold pointwise_curve; cbn [na]. rewrite !getitem_grid by exact Hi.
  pose proof (nth_grid_In i Hi) as Hin.
  pose proof (grid_range _ Hin) as Hrange.
  set (d := nth i grid 0) in *.
  pose proof (Hall1 d Hin) as Hd1. pose proof (Hall2 d Hin) as Hd2.
  rewrite (n2_at_fin SNR1 integrate d Hd1), (n2_at_fin SNR2 integrate d Hd2).
  destruct integrate; cbn [flt]; unfold disc_at in *.
  - apply plus_root_decreasing_in_c.
    + apply a_at_pos; lra.
    + apply c_int_decreasing; lra.
    + exact Hd1.
  - apply root_alone_increasing. split; [apply c_at_nonneg|].
    apply c_at_increasing_in_gain; lra.
Qed.

Lemma count_increases_with_gain_witness :
  0 <= default_SNR /\ default_SNR < 6 /\
  exists r1 r2 : CostCurve,
    compute_costs default_C default_f1 default_f2 default_f3 default_SNR true
                  default_alpha = inr r1 /\
    compute_costs default_C default_f1 default_f2 default_f3 6 true
                  default_alpha = inr r2 /\
    (0 < 300)%nat /\
    flt (getitem (na r1) 0) (getitem (na r2) 0).
Proof.
  assert (H0 : 0 <= default_SNR) by (unfold default_SNR; lra).
  assert (H1 : default_SNR < 6) by (unfold default_SNR; lra).
  assert (Hi : (0 < 300)%nat) by lia.
  destruct (defaults_return true) as [k1 Hk1].
  destruct (compute_costs_returns default_C default_f1 default_f2 default_f3
              6 true default_alpha) as [k2 Hk2].
  { apply disc_int_grid_iff. lra. }
  split; [exact H0|]. split; [exact H1|].
  do 2 eexists. split; [exact Hk1|]. split; [exact Hk2|]. split; [exact Hi|].
  exact (count_increases_with_gain _ _ _ _ _ _ _ _ _ _ 0%nat H0 H1 Hk1 Hk2 Hi).
Defined.



(** ** What does not move the optimum *)

Lemma getitem_map_lift1 (f : R -> R) (l : ndarray) (m : nat) :
  getitem (map (lift1 f) l) m = lift1 f (getitem l m).
Proof. unfold getitem. apply (map_nth (lift1 f) l NaN m). Qed.

(** Two parameter sets whose total costs differ by a strictly increasing map
    [f], with the same gain and regime, return together and share the optimum. *)
Lemma optimum_transfer (f : R -> R) (C f1 f2 f3 C' f1' f2' f3' SNR : R)
      (integrate : bool) (alpha : R) (r : CostCurve) :
  (forall x y, x <= y <-> f x <= f y) ->
  (forall d, total_cost_at C' f1' f2' f3' SNR integrate alpha d =
             lift1 f (total_cost_at C f1 f2 f3 SNR integrate alpha d)) ->
  compute_costs C f1 f2 f3 SNR integrate alpha = inr r ->
  exists r' : CostCurve,
    compute_costs C' f1' f2' f3' SNR integrate alpha = inr r' /\
    D r' = D r /\ na r' = na r /\
    total_cost r' = map (lift1 f) (total_cost r) /\
    D_opt r' = D_opt r /\
    C_min r' = lift1 f (C_min r) /\
    new_antennae r' = new_antennae r.
Proof.
  intros Hf HT Hr.
  apply compute_costs_inr_opt in Hr. destruct Hr as [Hall [n [Hn ->]]].
  assert (Hmap : map (total_cost_at C' f1' f2' f3' SNR integrate alpha) grid =
                 map (lift1 f)
                     (map (total_cost_at C f1 f2 f3 SNR integrate alpha) grid)).
  { rewrite map_map. apply map_ext. exact HT. }
  assert (Harg : argmin (map (total_cost_at C' f1' f2' f3' SNR integrate alpha) grid)
                 = argmin (map (total_cost_at C f1 f2 f3 SNR integrate alpha) grid)).
  { rewrite Hmap. now apply argmin_increasing. }
  exists (pointwise_curve C' f1' f2' f3' SNR integrate alpha (round_half_even n)).
  split.
  - rewrite compute_costs_pointwise, Harg.
    rewrite getitem_grid by apply argmin_total_lt_300.
    now rewrite Hn, py_int_np_round.
  - unfold pointwise_curve;
      cbn [D na total_cost D_opt C_min new_antennae].
    rewrite Harg.
    repeat split; try reflexivity.
    + exact Hmap.
    + rewrite Hmap. apply getitem_map_lift1.
Qed.

Lemma total_cost_at_shift C C' f1 f2 f3 SNR integrate alpha d :
  total_cost_at C' f1 f2 f3 SNR integrate alpha d =
  lift1 (fun t => t + (C' - C)) (total_cost_at C f1 f2 f3 SNR integrate alpha d).
Proof.
  unfold total_cost_at, cost_ant_at, cost_rcv_at, cost_corr_at.
  destruct integrate; destruct (n2_at SNR _ d); try reflexivity;
    cbn [fadd fmul fsquare fpower lift1 lift2]; f_equal; ring.
Qed.

Lemma total_cost_at_scale lam C f1 f2 f3 SNR integrate alpha d :
  total_cost_at (lam * C) (lam * f1) (lam * f2) (lam * f3) SNR integrate alpha d =
  lift1 (fun t => lam * t) (total_cost_at C f1 f2 f3 SNR integrate alpha d).
Proof.
  unfold total_cost_at, cost_ant_at, cost_rcv_at, cost_corr_at.
  destruct integrate; destruct (n2_at SNR _ d); try reflexivity;
    cbn [fadd fmul fsquare fpower lift1 lift2]; f_equal; ring.
Qed.

(** X9.  The base cost does not move the optimum: changing [C] to [C'] (all
    else fixed) keeps the evaluation returning, with the same [D_opt], the
    same counts and [new_antennae], and every total cost, [C_min] included,
    shifted by [C' - C]. *)
Theorem base_cost_shifts_curve (C C' f1 f2 f3 SNR : R) (integrate : bool)
        (alpha : R) (r : CostCurve) :
  compute_costs C f1 f2 f3 SNR integrate alpha = inr r ->
  exists r' : CostCurve,
    compute_costs C' f1 f2 f3 SNR integrate alpha = inr r' /\
    D_opt r' = D_opt r /\
    new_antennae r' = new_antennae r /\
    na r' = na r /\
    total_cost r' = map (fun t => fadd t (Fin (C' - C))) (total_cost r) /\
    C_min r' = fadd (C_min r) (Fin (C' - C)).
Proof.
  intros Hr.
  destruct (optimum_transfer (fun t => t + (C' - C)) C f1 f2 f3 C' f1 f2 f3
              SNR integrate alpha r) as [r' [Hr' [_ [Hna [HT [HD [HC Hk]]]]]]].
  - intros x y. lra.
  - intro d. apply total_cost_at_shift.
  - exact Hr.
  - exists r'. split; [exact Hr'|]. split; [exact HD|]. split; [exact Hk|].
    split; [exact Hna|]. split.
    + rewrite HT. apply map_ext. intros [t|]; reflexivity.
    + rewrite HC. destruct (C_min r); reflexivity.
Qed.

Lemma base_cost_shifts_curve_witness :
  exists r : CostCurve,
    compute_costs default_C default_f1 default_f2 default_f3 default_SNR true
                  default_alpha = inr r /\
    exists r' : CostCurve,
      compute_costs 0 default_f1 default_f2 default_f3 default_SNR true
                    default_alpha = inr r' /\
      D_opt r' = D_opt r /\
      new_antennae r' = new_antennae r /\
      na r' = na r /\
      total_cost r' = map (fun t => fadd t (Fin (0 - default_C))) (total_cost r) /\
      C_min r' = fadd (C_min r) (Fin (0 - default_C)).
Proof.
  destruct (defaults_return true) as [k Hk].
  eexists. split; [exact Hk|].
  exact (base_cost_shifts_curve default_C 0 _ _ _ _ _ _ _ Hk).
Defined.

(** X10.  The unit of cost does not move the optimum: multiplying the base
    cost and the three cost factors by one positive number keeps the
    evaluation returning, with the same [D_opt], counts and [new_antennae],
    and every total cost, [C_min] included, multiplied by that number. *)
Theorem cost_unit_scales_curve (lam C f1 f2 f3 SNR : R) (integrate : bool)
        (alpha : R) (r : CostCurve) :
  0 < lam ->
  compute_costs C f1 f2 f3 SNR integrate alpha = inr r ->
  exists r' : CostCurve,
    compute_costs (lam * C) (lam * f1) (lam * f2) (lam * f3) SNR integrate alpha
      = inr r' /\
    D_opt r' = D_opt r /\
    new_antennae r' = new_antennae r /\
    na r' = na r /\
    total_cost r' = map (fmul (Fin lam)) (total_cost r) /\
    C_min r' = fmul (Fin lam) (C_min r).
Proof.
  intros Hlam Hr.
  destruct (optimum_transfer (fun t => lam * t) C f1 f2 f3
              (lam * C) (lam * f1) (lam * f2) (lam * f3)
              SNR integrate alpha r) as [r' [Hr' [_ [Hna [HT [HD [HC Hk]]]]]]].
  - intros x y. split; intros H; nra.
  - intro d. apply total_cost_at_scale.
  - exact Hr.
  - exists r'. split; [exact Hr'|]. split; [exact HD|]. split; [exact Hk|].
    split; [exact Hna|]. split.
    + rewrite HT. apply map_ext. intros [t|]; reflexivity.
    + rewrite HC. destruct (C_min r); reflexivity.
Qed.

Lemma cost_unit_scales_curve_witness :
  0 < 1000000 /\
  exists r : CostCurve,
    compute_costs 50 5 (1 / 4) (3 / 500) default_SNR true default_alpha = inr r /\
    exists r' : CostCurve,
      compute_costs (1000000 * 50) (1000000 * 5) (1000000 * (1 / 4))
                    (1000000 * (3 / 500)) default_SNR true default_alpha
        = inr r' /\
      D_opt r' = D_opt r /\
      new_antennae r' = new_antennae r /\
      na r' = na r /\
      total_cost r' = map (fmul (Fin 1000000)) (total_cost r) /\
      C_min r' = fmul (Fin 1000000) (C_min r).
Proof.
  assert (Hlam : 0 < 1000000) by lra.
  destruct (compute_costs_returns 50 5 (1 / 4) (3 / 500) default_SNR true
              default_alpha) as [k Hk].
  { apply disc_int_grid_iff. unfold default_SNR. lra. }
  split; [exact Hlam|].
  eexists. split; [exact Hk|].
  exact (cost_unit_scales_curve 1000000 _ _ _ _ _ _ _ _ Hlam Hk).
Defined.

(** ** The break-even gain of the integrated regime *)








(** ** The callback: units and the checkbox *)

Lemma update_returns (s : Sliders) :
  1 <= slider_SNR s -> exists p' : Plot, update s = inr p'.
Proof.
  intros Hs. unfold update, compute_costs_kw, update_values.
  cbn [val_C val_f1 val_f2 val_f3 val_SNR val_alpha val_integrate].
  destruct (compute_costs_returns (slider_C s * 1e6) (slider_f1 s * 1e6)
              (slider_f2 s) (slider_f3 s) (slider_SNR s)
              (truthy (length (button_active s))) (slider_alpha s)) as [k Hk].
  { destruct (truthy (length (button_active s))).
    - apply disc_int_grid_iff. nra.
    - apply Forall_forall. intros d _.
      pose proof (disc_alone_ge_1 (slider_SNR s) d). lra. }
  rewrite Hk. eexists. reflexivity.
Qed.

(** X12.  After a callback that returns, each row of the plotted columns is
    built from the slider values with the base cost and the antenna factor
    taken in millions, and the correlator column follows the checkbox: with
    no box ticked it is [f3 * n^2] (standalone), with a box ticked
    [f3 * (n + 50)^2] (integrated), for one count [n] per row. *)
Theorem update_units_and_checkbox (s : Sliders) (p' : Plot) (i : nat) :
  update s = inr p' ->
  (i < 300)%nat ->
  exists d n : R,
    getitem (col_D (source_left p')) i = Fin d /\
    getitem (col_ant (source_left p')) i =
      Fin (slider_f1 s * 1000000 * n * Rpower (d / 12) (slider_alpha s)) /\
    getitem (col_rcv (source_left p')) i = Fin (slider_f2 s * n) /\
    getitem (col_corr (source_left p')) i =
      Fin (match button_active s with
           | [] => slider_f3 s * n ^ 2
           | _ :: _ => slider_f3 s * (n + 50) ^ 2
           end) /\
    getitem (col_total (source_left p')) i =
      Fin (slider_C s * 1000000
           + slider_f1 s * 1000000 * n * Rpower (d / 12) (slider_alpha s)
           + slider_f2 s * n
           + match button_active s with
             | [] => slider_f3 s * n ^ 2
             | _ :: _ => slider_f3 s * (n + 50) ^ 2
             end).
Proof.
  intros Hu Hi. unfold update, compute_costs_kw, update_values in Hu.
  cbn [val_C val_f1 val_f2 val_f3 val_SNR val_alpha val_integrate] in Hu.
  replace 1e6 with 1000000 in Hu by lra.
  destruct (compute_costs (slider_C s * 1000000) (slider_f1 s * 1000000)
              (slider_f2 s) (slider_f3 s) (slider_SNR s)
              (truthy (length (button_active s))) (slider_alpha s))
    as [e|r] eqn:Hr; [discriminate|].
  injection Hu as <-. cbn [source_left col_D col_ant col_rcv col_corr col_total].
  apply compute_costs_inr in Hr. destruct Hr as [Hall [k ->]].
  rewrite Forall_forall in Hall.
  unfold pointwise_curve; cbn [D cost_ant cost_rcv cost_corr total_cost].
  rewrite !getitem_grid by exact Hi.
  set (d := nth i grid 0).
  assert (Hd : 0 <= disc_at (slider_SNR s) (truthy (length (button_active s))) d).
  { apply Hall. now apply nth_grid_In. }
  unfold total_cost_at, cost_ant_at, cost_rcv_at, cost_corr_at.
  rewrite (n2_at_fin _ _ d Hd).
  destruct (button_active s) as [|x l]; cbn [length truthy Nat.eqb negb];
    cbn [fadd fmul fsquare fpower lift1 lift2];
    do 2 eexists; repeat split; reflexivity.
Qed.

Lemma update_units_and_checkbox_witness :
  exists p' : Plot,
    update initial_sliders = inr p' /\
    (0 < 300)%nat /\
    exists d n : R,
      getitem (col_D (source_left p')) 0 = Fin d /\
      getitem (col_ant (source_left p')) 0 =
        Fin (slider_f1 initial_sliders * 1000000 * n
             * Rpower (d / 12) (slider_alpha initial_sliders)) /\
      getitem (col_rcv (source_left p')) 0 = Fin (slider_f2 initial_sliders * n) /\
      getitem (col_corr (source_left p')) 0 =
        Fin (slider_f3 initial_sliders * (n + 50) ^ 2) /\
      getitem (col_total (source_left p')) 0 =
        Fin (slider_C initial_sliders * 1000000
             + slider_f1 initial_sliders * 1000000 * n
               * Rpower (d / 12) (slider_alpha initial_sliders)
             + slider_f2 initial_sliders * n
             + slider_f3 initial_sliders * (n + 50) ^ 2).
Proof.
  assert (Hs : 1 <= slider_SNR initial_sliders).
  { unfold initial_sliders; cbn [slider_SNR]; lra. }
  assert (Hi : (0 < 300)%nat) by lia.
  destruct (update_returns initial_sliders Hs) as [p' Hp'].
  exists p'. split; [exact Hp'|]. split; [exact Hi|].
  exact (update_units_and_checkbox initial_sliders p' 0%nat Hp' Hi).
Defined.
